(** * EnglishMaster Pro: scheduling and progression core

    A shallow embedding of the adaptive core of the application:
    - [SM2]: the spaced-repetition card scheduler (the [SM2] object),
    - [Vocabulary]: the review-session queue of the vocabulary module,
    - [Grammar]: the seven-phase topic state machine,
    - [PlacementTest]: the adaptive placement test.

    Conventions of the embedding.
    - JavaScript numbers that hold counts, indices, days or milliseconds are
      integers ([Z], or [nat] where the code only ever counts up from 0);
      numbers that hold fractions (ease factors, scores, accuracies, the
      results of [Math.random]) are exact rationals ([Q]).  [Math.round x] is
      [Qfloor (x + 1/2)].
    - [Date.now()] and [Math.random()] are inputs: every operation that reads
      the clock takes the current time [now], every operation that draws
      random numbers takes the values drawn.
    - Objects mutated in place are records threaded through the operations;
      objects used as dictionaries are [gmap]s, [Set]s are [gset]s. *)

From Stdlib Require Import ZArith QArith Qround Qminmax Lqa Lia.
From stdpp Require Import gmap strings list sorting.

Local Open Scope Z_scope.

(** ** Helpers shared by the modules *)

(** [Math.round] on a rational: the nearest integer, halves rounded up. *)
Definition Math_round (x : Q) : Z := Qfloor (x + 0.5).

(** Decidable order on rationals, as the JavaScript comparisons [<=] and [<]. *)
Definition Qleb (x y : Q) : bool := Qle_bool x y.
Definition Qltb (x y : Q) : bool := negb (Qle_bool y x).

(** * The SM-2 card scheduler *)

Module SM2.

(** The four status tags a card carries ('new', 'learning', 'review',
    'learned'). *)
Inductive Status := new | learning | review | learned.

#[global] Instance Status_eq_dec : EqDecision Status.
Proof. solve_decision. Defined.

Record Card := mkCard {
  wordId : string;
  status : Status;
  easeFactor : Q;
  interval : Z;
  repetitions : Z;
  lapses : Z;
  learningStep : nat;
  nextReview : Z;
  lastReview : option Z
}.

Definition set_status (v : Status) (c : Card) : Card :=
  mkCard (wordId c) v (easeFactor c) (interval c) (repetitions c) (lapses c)
         (learningStep c) (nextReview c) (lastReview c).
Definition set_easeFactor (v : Q) (c : Card) : Card :=
  mkCard (wordId c) (status c) v (interval c) (repetitions c) (lapses c)
         (learningStep c) (nextReview c) (lastReview c).
Definition set_interval (v : Z) (c : Card) : Card :=
  mkCard (wordId c) (status c) (easeFactor c) v (repetitions c) (lapses c)
         (learningStep c) (nextReview c) (lastReview c).
Definition set_repetitions (v : Z) (c : Card) : Card :=
  mkCard (wordId c) (status c) (easeFactor c) (interval c) v (lapses c)
         (learningStep c) (nextReview c) (lastReview c).
Definition set_lapses (v : Z) (c : Card) : Card :=
  mkCard (wordId c) (status c) (easeFactor c) (interval c) (repetitions c) v
         (learningStep c) (nextReview c) (lastReview c).
Definition set_learningStep (v : nat) (c : Card) : Card :=
  mkCard (wordId c) (status c) (easeFactor c) (interval c) (repetitions c)
         (lapses c) v (nextReview c) (lastReview c).
Definition set_nextReview (v : Z) (c : Card) : Card :=
  mkCard (wordId c) (status c) (easeFactor c) (interval c) (repetitions c)
         (lapses c) (learningStep c) v (lastReview c).
Definition set_lastReview (v : option Z) (c : Card) : Card :=
  mkCard (wordId c) (status c) (easeFactor c) (interval c) (repetitions c)
         (lapses c) (learningStep c) (nextReview c) v.

(** Learning phase steps (in minutes). *)
Definition learningSteps : list Z := [1; 10].

(** Intervals after graduating from learning (days). *)
Definition graduatingInterval : Z := 1.
Definition easyInterval : Z := 4.

(** Ease factor bounds. *)
Definition minEaseFactor : Q := 1.3.
Definition maxEaseFactor : Q := 3.0.
Definition defaultEaseFactor : Q := 2.5.

(** Quality ratings. *)
Definition AGAIN : Z := 0.
Definition HARD : Z := 1.
Definition GOOD : Z := 2.
Definition EASY : Z := 3.

(** [learningSteps[i]]; the ladder is a non-empty constant, and every index
    the scheduler reads without a fallback is below its length. *)
Definition step_at (i : nat) : Z := default 0 (learningSteps !! i).

Definition minute : Z := 60 * 1000.
Definition day : Z := 24 * 60 * 60 * 1000.

Definition createCard (now : Z) (wordId : string) : Card :=
  {| wordId := wordId;
     status := new;
     easeFactor := defaultEaseFactor;
     interval := 0;
     repetitions := 0;
     lapses := 0;
     learningStep := 0;
     nextReview := now;
     lastReview := None |}.

(** Process learning phase card. *)
Definition processLearning (now : Z) (card : Card) (quality : Z) : Card :=
  let card :=
    if quality =? AGAIN then
      (* Reset to first step *)
      set_nextReview (now + step_at 0 * minute) (set_learningStep 0%nat card)
    else if quality =? HARD then
      (* Stay at current step *)
      let stepMinutes :=
        match learningSteps !! learningStep card with
        | Some m => if m =? 0 then step_at 0 else m
        | None => step_at 0
        end in
      set_nextReview (now + stepMinutes * minute) card
    else if quality =? GOOD then
      (* Advance to next step *)
      let card := set_learningStep (S (learningStep card)) card in
      if (length learningSteps <=? learningStep card)%nat then
        (* Graduate to review *)
        set_nextReview (now + graduatingInterval * day)
          (set_interval graduatingInterval (set_status review card))
      else
        set_nextReview (now + step_at (learningStep card) * minute) card
    else if quality =? EASY then
      (* Graduate immediately with easy interval *)
      set_nextReview (now + easyInterval * day)
        (set_easeFactor (easeFactor card + 0.15)
          (set_interval easyInterval (set_status review card)))
    else card in
  if decide (status card <> new) then
    set_status (if decide (status card = review) then review else learning) card
  else card.

(** Process review phase card. *)
Definition processReview (now : Z) (card : Card) (quality : Z) : Card :=
  if quality =? AGAIN then
    (* Lapse - back to learning *)
    set_nextReview (now + step_at 0 * minute)
      (set_easeFactor (Qmax (easeFactor card - 0.2) minEaseFactor)
        (set_learningStep 0%nat
          (set_status learning
            (set_lapses (lapses card + 1) card))))
  else
    (* Successful review *)
    let card := set_repetitions (repetitions card + 1) card in
    (* Update ease factor using SM-2 formula *)
    let q : Q := inject_Z (quality + 2) in
    let card :=
      set_easeFactor (easeFactor card + (0.1 - (5 - q) * (0.08 + (5 - q) * 0.02))) card in
    let card :=
      set_easeFactor (Qmax minEaseFactor (Qmin maxEaseFactor (easeFactor card))) card in
    (* Calculate new interval *)
    let card :=
      if quality =? HARD then
        set_interval (Math_round (inject_Z (interval card) * 1.2)) card
      else if quality =? GOOD then
        set_interval (Math_round (inject_Z (interval card) * easeFactor card)) card
      else if quality =? EASY then
        set_interval (Math_round (inject_Z (interval card) * easeFactor card * 1.3)) card
      else card in
    let card := set_nextReview (now + interval card * day) card in
    (* Check if learned *)
    if 21 <=? interval card then set_status learned card else card.

(** Process user answer. *)
Definition processAnswer (now : Z) (card : Card) (quality : Z) : Card :=
  let card := set_lastReview (Some now) card in
  if decide (status card = new \/ status card = learning) then
    processLearning now card quality
  else
    processReview now card quality.

(** A review history: the clock reading and the quality of each answer. *)
Definition answers (card : Card) (history : list (Z * Z)) : Card :=
  fold_left (fun c a => processAnswer (fst a) c (snd a)) history card.

(** The card after each answer of a history, in order. *)
Fixpoint trace (card : Card) (history : list (Z * Z)) : list Card :=
  match history with
  | [] => []
  | a :: rest =>
      let card := processAnswer (fst a) card (snd a) in
      card :: trace card rest
  end.

Definition validQuality (quality : Z) : Prop :=
  quality = AGAIN \/ quality = HARD \/ quality = GOOD \/ quality = EASY.

End SM2.

(** * The vocabulary review session *)

(** [array.slice(0, limit)]: a negative [limit] counts from the end. *)
Definition slice0 {A} (array : list A) (limit : Z) : list A :=
  if limit <? 0 then take (Z.to_nat (Z.of_nat (length array) + limit)) array
  else take (Z.to_nat limit) array.

Module Vocabulary.

(** Learning modes. *)
Definition RECEPTIVE : string := "receptive".
Definition PRODUCTIVE : string := "productive".
Definition DEFINITION : string := "definition".
Definition SENTENCE : string := "sentence".
Definition TIMED : string := "timed".
Definition SPELLING : string := "spelling".

(** The word information a card is created from; a missing property is
    [None]. *)
Record WordData := mkWordData {
  wd_word : string;
  wd_phonetic : option string;
  wd_translation_ru : option string;
  wd_definition : option string;
  wd_examples : option (list string);
  wd_collocations : option (list string);
  wd_level : option string;
  wd_frequency : option Z;
  wd_audio : option string
}.

(** A vocabulary card.  The [pronunciation] record and [spelling.lastScore],
    which the session code never reads, are left out. *)
Record Card := mkCard {
  word : string;
  transcription : string;
  translation : string;
  definition : string;
  examples : list string;
  collocations : list string;
  level : string;
  frequency : Z;
  audio : string;
  (* SM-2 data for each mode *)
  receptive : SM2.Card;
  productive : SM2.Card;
  (* Spelling tracking *)
  spelling_accuracy : Q;
  spelling_attempts : list bool;
  addedAt : Z
}.

(** [s || d] on an optional string: the empty string is falsy too. *)
Definition string_or (s : option string) (d : string) : string :=
  match s with
  | Some v => if decide (v = EmptyString) then d else v
  | None => d
  end.

(** Create new vocabulary card. *)
Definition createCard (now : Z) (wordData : WordData) : Card :=
  {| word := wd_word wordData;
     transcription := string_or (wd_phonetic wordData) EmptyString;
     translation := string_or (wd_translation_ru wordData) EmptyString;
     definition := string_or (wd_definition wordData) EmptyString;
     examples := default [] (wd_examples wordData);
     collocations := default [] (wd_collocations wordData);
     level := string_or (wd_level wordData) "B1";
     frequency :=
       match wd_frequency wordData with
       | Some f => if f =? 0 then 5000 else f
       | None => 5000
       end;
     audio := string_or (wd_audio wordData) EmptyString;
     receptive := SM2.createCard now (wd_word wordData +:+ "_receptive");
     productive := SM2.createCard now (wd_word wordData +:+ "_productive");
     spelling_accuracy := 0;
     spelling_attempts := [];
     addedAt := now |}.

(** One entry of the session's result log. *)
Record Result := mkResult {
  r_word : string;
  r_quality : Z;
  r_mode : option string;
  r_timestamp : Z
}.

Module Session.
Record t := mk {
  mode : option string;
  cards : list Card;
  currentIndex : nat;
  results : list Result;
  startTime : option Z
}.
End Session.

(** The vocabulary module: the learner's cards and the current session. *)
Record State := mkState {
  cards : list Card;
  currentSession : Session.t
}.

(** The state the constructor builds. *)
Definition initial : State :=
  {| cards := [];
     currentSession := Session.mk None [] 0 [] None |}.

(** [mode === MODES.RECEPTIVE ? 'receptive' : 'productive'], as the
    projection it selects. *)
Definition modeKey (mode : string) : Card -> SM2.Card :=
  if decide (mode = RECEPTIVE) then receptive else productive.

(** [array.sort((a, b) => key(a) - key(b))]: a stable ascending sort. *)
Fixpoint insert_by {A} (key : A -> Z) (x : A) (sorted : list A) : list A :=
  match sorted with
  | [] => [x]
  | y :: rest =>
      if key x <=? key y then x :: y :: rest else y :: insert_by key x rest
  end.

Definition sort_by {A} (key : A -> Z) (array : list A) : list A :=
  foldr (insert_by key) [] array.

(** Get cards due for review. *)
Definition getDueCards (now : Z) (mode : string) (st : State) : list Card :=
  let key := fun card => SM2.nextReview (modeKey mode card) in
  sort_by key (filter (fun card => key card <= now) (cards st)).

(** Get new cards. *)
Definition getNewCards (limit : Z) (st : State) : list Card :=
  slice0 (filter (fun card => SM2.status (receptive card) = SM2.new) (cards st))
         limit.

(** [[array[i], array[j]] = [array[j], array[i]]] for indices inside the
    array. *)
Definition swap {A} (i j : nat) (array : list A) : list A :=
  match array !! i, array !! j with
  | Some x, Some y => <[j := x]> (<[i := y]> array)
  | _, _ => array
  end.

(** The loop of [shuffleArray], from index [i] down to 1; [randoms] are the
    values [Math.random()] returns, in the order drawn (each in [0, 1), so
    that [j <= i]). *)
Fixpoint shuffle_from {A} (i : nat) (randoms : list Q) (array : list A) : list A :=
  match i with
  | O => array
  | S i' =>
      let j := Z.to_nat (Qfloor (hd 0%Q randoms * inject_Z (Z.of_nat i + 1))) in
      shuffle_from i' (tl randoms) (swap i j array)
  end.

(** Shuffle array in place. *)
Definition shuffleArray {A} (randoms : list Q) (array : list A) : list A :=
  shuffle_from (length array - 1) randoms array.

(** Start learning session. *)
Definition startSession (now : Z) (randoms : list Q) (mode : string) (limit : Z)
    (st : State) : State :=
  let dueCards := getDueCards now mode st in
  let newCards :=
    getNewCards (limit - Z.min (Z.of_nat (length dueCards)) limit) st in
  let queue := slice0 (slice0 dueCards limit ++ newCards) limit in
  {| cards := cards st;
     currentSession :=
       {| Session.mode := Some mode;
          (* Shuffle cards *)
          Session.cards := shuffleArray randoms queue;
          Session.currentIndex := 0;
          Session.results := [];
          Session.startTime := Some now |} |}.

(** The default [limit] of [startSession]. *)
Definition default_limit : Z := 20.

(** Get current card in session. *)
Definition getCurrentCard (st : State) : option Card :=
  Session.cards (currentSession st) !! Session.currentIndex (currentSession st).

End Vocabulary.

(** * The grammar topic state machine *)

(** [array.indexOf(x)]: the first position of [x], or -1. *)
Fixpoint indexOf (array : list string) (x : string) : Z :=
  match array with
  | [] => -1
  | y :: rest =>
      if decide (y = x) then 0
      else let i := indexOf rest x in if i <? 0 then -1 else i + 1
  end.

(** [array[i]] for a number [i]: [None] (undefined) outside the array. *)
Definition at_index {A} (array : list A) (i : Z) : option A :=
  if i <? 0 then None else array !! Z.to_nat i.

Module Grammar.

(** Learning phases (Grammar Journey). *)
Definition DISCOVER : string := "discover".
Definition UNDERSTAND : string := "understand".
Definition NOTICE : string := "notice".
Definition PRACTICE : string := "practice".
Definition PRODUCE : string := "produce".
Definition INPUT_FLOOD : string := "input_flood".
Definition REVIEW : string := "review".

(** Phase order for navigation. *)
Definition PHASE_ORDER : list string :=
  ["discover"; "understand"; "notice"; "practice"; "produce"; "input_flood";
   "review"].

Module Practice.
Record t := mk { completed : bool; score : Q; attempts : Z }.
End Practice.

Record Submission := mkSubmission {
  text : option string;
  feedback : option string;
  timestamp : Z
}.

Module Produce.
Record t := mk { completed : bool; submissions : list Submission }.
End Produce.

Module Review.
Record t := mk {
  cards : option (list string);
  accuracy : option Q;
  lastReview : option Z
}.
End Review.

(** The per-phase record of a topic; an absent [practice], [produce] or
    [review] object is [None]. *)
Record Phases := mkPhases {
  discover : bool;
  understand : bool;
  notice : bool;
  practice : option Practice.t;
  produce : option Produce.t;
  input_flood : Z;
  review : option Review.t
}.

Record Progress := mkProgress {
  phases : Phases;
  testScore : option Q;
  acquired : bool;
  startedAt : option Z;
  completedAt : option Z
}.

(** The [data] argument of [completePhase]; a missing property is [None]. *)
Record Data := mkData {
  d_score : option Q;
  d_text : option string;
  d_feedback : option string;
  d_accuracy : option Q
}.

(** The progress of a topic that has none recorded. *)
Definition defaultProgress : Progress :=
  {| phases :=
       {| discover := false;
          understand := false;
          notice := false;
          practice := Some (Practice.mk false 0 0);
          produce := Some (Produce.mk false []);
          input_flood := 0;
          review := Some (Review.mk (Some []) (Some 0%Q) None) |};
     testScore := None;
     acquired := false;
     startedAt := None;
     completedAt := None |}.

(** [progress.phases.practice?.completed] and [produce?.completed] as
    conditions. *)
Definition practice_completed (p : Phases) : bool :=
  match practice p with Some x => Practice.completed x | None => false end.
Definition produce_completed (p : Phases) : bool :=
  match produce p with Some x => Produce.completed x | None => false end.

(** Determine current phase based on progress. *)
Definition determineCurrentPhase (progress : Progress) : string :=
  if negb (discover (phases progress)) then DISCOVER
  else if negb (understand (phases progress)) then UNDERSTAND
  else if negb (notice (phases progress)) then NOTICE
  else if negb (practice_completed (phases progress)) then PRACTICE
  else if negb (produce_completed (phases progress)) then PRODUCE
  else if input_flood (phases progress) <? 5 then INPUT_FLOOD
  else REVIEW.

(** Check if topic is completed. *)
Definition isTopicCompleted (progress : Progress) : bool :=
  discover (phases progress) &&
  understand (phases progress) &&
  notice (phases progress) &&
  practice_completed (phases progress) &&
  produce_completed (phases progress) &&
  (5 <=? input_flood (phases progress)).

(** [a || b] on optional numbers: the first that is present and not 0. *)
Definition truthy (x : option Q) : option Q :=
  match x with
  | Some v => if Qeq_bool v 0 then None else Some v
  | None => None
  end.

(** The [switch] of [completePhase]: the update of the phase record. *)
Definition updatePhases (now : Z) (phase : string) (data : Data) (p : Phases) : Phases :=
  if decide (phase = DISCOVER) then
    mkPhases true (understand p) (notice p) (practice p) (produce p)
             (input_flood p) (review p)
  else if decide (phase = UNDERSTAND) then
    mkPhases (discover p) true (notice p) (practice p) (produce p)
             (input_flood p) (review p)
  else if decide (phase = NOTICE) then
    mkPhases (discover p) (understand p) true (practice p) (produce p)
             (input_flood p) (review p)
  else if decide (phase = PRACTICE) then
    let practice' :=
      {| Practice.completed :=
           match d_score data with Some s => Qleb 0.7 s | None => false end;
         Practice.score := default 0%Q (d_score data);
         Practice.attempts :=
           match practice p with Some x => Practice.attempts x | None => 0 end
           + 1 |} in
    mkPhases (discover p) (understand p) (notice p) (Some practice') (produce p)
             (input_flood p) (review p)
  else if decide (phase = PRODUCE) then
    let produce' :=
      {| Produce.completed := true;
         Produce.submissions :=
           match produce p with Some x => Produce.submissions x | None => [] end
           ++ [mkSubmission (d_text data) (d_feedback data) now] |} in
    mkPhases (discover p) (understand p) (notice p) (practice p) (Some produce')
             (input_flood p) (review p)
  else if decide (phase = INPUT_FLOOD) then
    mkPhases (discover p) (understand p) (notice p) (practice p) (produce p)
             (input_flood p + 1) (review p)
  else if decide (phase = REVIEW) then
    let review' :=
      {| Review.cards := review p ≫= Review.cards;
         Review.accuracy :=
           Some (default 0%Q
                   (match truthy (d_accuracy data) with
                    | Some a => Some a
                    | None => truthy (review p ≫= Review.accuracy)
                    end));
         Review.lastReview := Some now |} in
    mkPhases (discover p) (understand p) (notice p) (practice p) (produce p)
             (input_flood p) (Some review')
  else p.

(** The mutation [completePhase] performs on the progress record of the
    current topic. *)
Definition updateProgress (now : Z) (phase : string) (data : Data)
    (progress : Progress) : Progress :=
  let progress :=
    mkProgress (updatePhases now phase data (phases progress))
               (testScore progress) (acquired progress) (startedAt progress)
               (completedAt progress) in
  (* Check if topic is completed *)
  if isTopicCompleted progress then
    mkProgress (phases progress) (testScore progress)
      (match review (phases progress) ≫= Review.accuracy with
       | Some a => Qleb 0.8 a
       | None => false
       end)
      (startedAt progress) (Some now)
  else progress.

(** The module's state; the topic content and its cache play no part in
    the progression and are left out. *)
Record State := mkState {
  progress : gmap string Progress;
  currentTopic : option string;
  currentPhase : option string
}.

(** What [completePhase] returns: [{ success: false }], the success record,
    or a TypeError when the current topic has no progress record. *)
Inductive Outcome :=
  | Failure
  | Success (progress : Progress) (nextPhase : string) (completed : bool)
  | TypeError.

(** Complete phase. *)
Definition completePhase (now : Z) (phase : string) (data : Data) (st : State)
    : Outcome * State :=
  match currentTopic st with
  | None => (Failure, st)
  | Some topic =>
      match progress st !! topic with
      | None => (TypeError, st)
      | Some p =>
          let p := updateProgress now phase data p in
          (* Move to next phase *)
          let next := determineCurrentPhase p in
          (Success p next (bool_decide (completedAt p <> None)),
           mkState (<[topic := p]> (progress st)) (currentTopic st) (Some next))
      end
  end.

(** The position of a phase in the fixed order. *)
Definition phaseIndex (phase : string) : Z := indexOf PHASE_ORDER phase.

End Grammar.

(** * The adaptive placement test *)

(** [array.slice(-n)]: the last [n] elements (all of them when there are
    fewer). *)
Definition slice_last {A} (n : nat) (array : list A) : list A :=
  drop (length array - n) array.

Module PlacementTest.

(** Test configuration. *)
Definition minQuestions : nat := 50.
Definition maxQuestions : nat := 70.
Definition timeLimit : Z := 35.
Definition sections : list string :=
  ["grammar"; "vocabulary"; "reading"; "listening_simulation"].
Definition adaptiveThreshold : Q := 0.7.
Definition moveDownThreshold : Q := 0.4.
Definition stabilityWindow : nat := 10.

(** The level list every method declares locally. *)
Definition levels : list string := ["A1"; "A2"; "B1"; "B2"; "C1"].

(** A question of a bank.  Of the display strings only [sentence] is kept:
    it decides the question type. *)
Record Question := mkQuestion {
  id : string;
  correct : Z;
  options : list string;
  sentence : option string
}.

(** A processed question bank. *)
Record Bank := mkBank {
  bank_level : string;
  bank_total : Z;
  bank_questions : list Question;
  bySection : gmap string (list Question)
}.

(** What [selectQuestion] returns: [{ ...q, level, section }]. *)
Record Selected := mkSelected {
  sel_question : Question;
  sel_level : string;
  sel_section : string
}.

(** An entry of [testSession.questions]: [{ ...question, qId, index }]. *)
Record Asked := mkAsked {
  asked : Selected;
  qId : string;
  index : nat
}.

(** An entry of [testSession.answers]. *)
Record Answer := mkAnswer {
  a_questionIndex : nat;
  a_qId : string;
  a_answer : Z;
  a_correct : bool;
  a_level : string;
  a_section : string
}.

(** An entry of [testSession.levelHistory]. *)
Record History := mkHistory {
  h_level : string;
  h_correct : bool
}.

Record LevelScore := mkLevelScore {
  ls_correct : Z;
  ls_total : Z
}.

Record SectionScore := mkSectionScore {
  ss_correct : Z;
  ss_total : Z;
  byLevel : gmap string LevelScore
}.

Record Session := mkSession {
  startTime : Z;
  currentLevel : string;
  questions : list Asked;
  answers : list Answer;
  sectionScores : gmap string SectionScore;
  usedQuestionIds : gset string;
  questionCount : nat;
  levelHistory : list History;
  finished : bool;
  endTime : option Z
}.

(** The module: the session ([None] before [startTest]) and the banks. *)
Record State := mkState {
  testSession : option Session;
  questionBanks : gmap string Bank
}.

Definition set_session (session : Session) (st : State) : State :=
  mkState (Some session) (questionBanks st).

Definition set_currentLevel (level : string) (s : Session) : Session :=
  mkSession (startTime s) level (questions s) (answers s) (sectionScores s)
            (usedQuestionIds s) (questionCount s) (levelHistory s) (finished s)
            (endTime s).

(** Start placement test, once the banks are loaded. *)
Definition startTest (now : Z) (st : State) : State :=
  let emptyByLevel : gmap string LevelScore :=
    list_to_map (map (fun level => (level, mkLevelScore 0 0)) levels) in
  let emptyScores : gmap string SectionScore :=
    list_to_map (map (fun section => (section, mkSectionScore 0 0 emptyByLevel))
                     sections) in
  set_session
    {| startTime := now;
       currentLevel := "A2"; (* Start at A2 *)
       questions := [];
       answers := [];
       sectionScores := emptyScores;
       usedQuestionIds := ∅;
       questionCount := 0;
       levelHistory := [];
       finished := false;
       endTime := None |} st.

(** The id under which a question is recorded as used:
    [`${level}_${section}_${q.id}`]. *)
Definition questionId (level section : string) (q : Question) : string :=
  level +:+ "_" +:+ section +:+ "_" +:+ id q.

(** The unused questions of a level and section; [None] when the bank or
    its section is missing. *)
Definition availableQuestions (banks : gmap string Bank) (section level : string)
    (usedIds : gset string) : option (list Question) :=
  bank ← banks !! level;
  qs ← bySection bank !! section;
  Some (filter (fun q => questionId level section q ∉ usedIds) qs).

(** Select a random unused question for section and level; [random] is the
    value [Math.random()] returns (in [0, 1), so that the index is inside
    [available]). *)
Definition selectQuestion (banks : gmap string Bank) (random : Q)
    (section level : string) (usedIds : gset string) : option Selected :=
  match availableQuestions banks section level usedIds with
  | None => None
  | Some [] => None
  | Some available =>
      let randomIdx :=
        Z.to_nat (Qfloor (random * inject_Z (Z.of_nat (length available)))) in
      q ← available !! randomIdx;
      Some (mkSelected q level section)
  end.

(** The formatted question handed to the caller. *)
Record Formatted := mkFormatted {
  f_id : string;
  f_section : string;
  f_level : string;
  questionNumber : nat;
  progress : Q;
  f_type : string;
  f_options : list string
}.

(** Format question for display; records the question as asked. *)
Definition formatQuestion (question : Selected) (section : string)
    (questionCount : nat) (s : Session) : Formatted * Session :=
  let qId := sel_level question +:+ "_" +:+ section +:+ "_"
             +:+ id (sel_question question) in
  let s :=
    mkSession (startTime s) (currentLevel s)
      (questions s ++ [mkAsked question qId questionCount])
      (answers s) (sectionScores s)
      ({[qId]} ∪ usedQuestionIds s)
      (S (PlacementTest.questionCount s))
      (levelHistory s) (finished s) (endTime s) in
  let type :=
    if decide (section = "reading") then "reading"
    else if decide (section = "listening_simulation") then "listening"
    else match sentence (sel_question question) with
         | Some text => if decide (text = EmptyString) then "vocabulary" else "fill_blank"
         | None => "vocabulary"
         end in
  ({| f_id := qId;
      f_section := section;
      f_level := sel_level question;
      questionNumber := questionCount + 1;
      progress := inject_Z (Z.of_nat questionCount + 1)
                  / inject_Z (Z.of_nat minQuestions);
      f_type := type;
      f_options := options (sel_question question) |}, s).

(** Check if test should end. *)
Definition shouldEndTest (s : Session) : bool :=
  if (questionCount s <? minQuestions)%nat then false
  else
    (* End if level has stabilized (same level for last N questions) *)
    let recentLevels := slice_last stabilityWindow (levelHistory s) in
    if (length recentLevels <? stabilityWindow)%nat then false
    else
      let levels := map h_level recentLevels in
      let uniqueLevels : gset string := list_to_set levels in
      bool_decide (size uniqueLevels = 1%nat).

(** The section of the next question (rotate through sections); the index
    is below the number of sections. *)
Definition sectionFor (questionCount : nat) : string :=
  default EmptyString (sections !! (questionCount mod length sections)%nat).

(** The levels tried when the current level has no question left, in the
    order tried: offset 1 up, 1 down, offset 2 up, 2 down, skipping
    positions outside the level list. *)
Definition adjacentLevels (currentLevel : string) : list string :=
  let currentIdx := indexOf levels currentLevel in
  omap (at_index levels)
       (offset ← [1; 2]; dir ← [1; -1]; [currentIdx + offset * dir]).

(** The first adjacent level that yields a question. *)
Fixpoint selectAdjacent (banks : gmap string Bank) (random : Q)
    (section : string) (tryLevels : list string) (usedIds : gset string)
    : option Selected :=
  match tryLevels with
  | [] => None
  | tryLevel :: rest =>
      match selectQuestion banks random section tryLevel usedIds with
      | Some altQuestion => Some altQuestion
      | None => selectAdjacent banks random section rest usedIds
      end
  end.

(** What [getNextQuestion] produces: [null], [{ finished: true }] or a
    formatted question; [Unfinished] stands for a call whose recursion is
    still running when the fuel is used up. *)
Inductive Next :=
  | Null
  | Finished
  | Question_ (formatted : Formatted)
  | Unfinished.

(** Get next question.  [fuel] bounds the depth of the recursion.  Only the
    [selectQuestion] call that finds a question draws from [Math.random], and
    the method returns right after it, so one [random] serves the call. *)
Fixpoint getNextQuestion (fuel : nat) (random : Q) (st : State) : Next * State :=
  match fuel with
  | O => (Unfinished, st)
  | S fuel =>
      match testSession st with
      | None => (Null, st)
      | Some session =>
          (* Check if test should end *)
          if (maxQuestions <=? questionCount session)%nat || shouldEndTest session
          then (Finished, st)
          else
            (* Determine section (rotate through sections) *)
            let section := sectionFor (questionCount session) in
            (* Get question for current level and section *)
            match selectQuestion (questionBanks st) random section
                    (currentLevel session) (usedQuestionIds session) with
            | Some question =>
                let (formatted, session) :=
                  formatQuestion question section (questionCount session) session in
                (Question_ formatted, set_session session st)
            | None =>
                (* Try adjacent levels if no question available *)
                match selectAdjacent (questionBanks st) random section
                        (adjacentLevels (currentLevel session))
                        (usedQuestionIds session) with
                | Some altQuestion =>
                    let (formatted, session) :=
                      formatQuestion altQuestion section (questionCount session)
                                     session in
                    (Question_ formatted, set_session session st)
                | None =>
                    (* No more questions available for this section, skip to next *)
                    getNextQuestion fuel random st
                end
            end
      end
  end.

(** Adapt level based on recent performance. *)
Definition adaptLevel (s : Session) : Session :=
  let recentAnswers := slice_last 5 (answers s) in
  if (length recentAnswers <? 5)%nat then s
  else
    (* Only consider answers at current level *)
    let currentLevelAnswers :=
      filter (fun a => a_level a = currentLevel s) recentAnswers in
    if (length currentLevelAnswers <? 3)%nat then s
    else
      let recentAccuracy :=
        (inject_Z (Z.of_nat (length (filter (fun a => a_correct a = true)
                                            currentLevelAnswers)))
         / inject_Z (Z.of_nat (length currentLevelAnswers)))%Q in
      let currentIndex := indexOf levels (currentLevel s) in
      if Qleb adaptiveThreshold recentAccuracy then
        (* Move up *)
        if currentIndex <? Z.of_nat (length levels) - 1 then
          match at_index levels (currentIndex + 1) with
          | Some level => set_currentLevel level s
          | None => s
          end
        else s
      else if Qltb recentAccuracy moveDownThreshold then
        (* Move down *)
        if 0 <? currentIndex then
          match at_index levels (currentIndex - 1) with
          | Some level => set_currentLevel level s
          | None => s
          end
        else s
      else s.

(** What [submitAnswer] returns. *)
Record Verdict := mkVerdict {
  v_correct : bool;
  v_correctAnswer : Z;
  v_correctOption : option string
}.

(** Submit answer.  [None] stands for the TypeError raised when there is no
    current question or no score record for its section or level. *)
Definition submitAnswer (answerIndex : Z) (s : Session)
    : option (Verdict * Session) :=
  currentQuestion ← last (questions s);
  let question := sel_question (asked currentQuestion) in
  let level := sel_level (asked currentQuestion) in
  let section := sel_section (asked currentQuestion) in
  let isCorrect := bool_decide (answerIndex = correct question) in
  let answers' :=
    answers s ++ [mkAnswer (index currentQuestion) (qId currentQuestion)
                           answerIndex isCorrect level section] in
  (* Track section score *)
  scores ← sectionScores s !! section;
  levelScore ← byLevel scores !! level;
  let bump (n : Z) := if isCorrect then n + 1 else n in
  let scores' :=
    mkSectionScore (bump (ss_correct scores)) (ss_total scores + 1)
      (<[level := mkLevelScore (bump (ls_correct levelScore))
                               (ls_total levelScore + 1)]> (byLevel scores)) in
  (* Track level history *)
  let history' := levelHistory s ++ [mkHistory level isCorrect] in
  let s :=
    mkSession (startTime s) (currentLevel s) (questions s) answers'
              (<[section := scores']> (sectionScores s)) (usedQuestionIds s)
              (questionCount s) history' (finished s) (endTime s) in
  (* Adapt level based on performance *)
  Some ({| v_correct := isCorrect;
           v_correctAnswer := correct question;
           v_correctOption := at_index (options question) (correct question) |},
        adaptLevel s).

(** Determine level from section scores by level. *)
Definition determineSectionLevel (byLevel : gmap string LevelScore) : string :=
  fold_left
    (fun determinedLevel level =>
       match byLevel !! level with
       | Some data =>
           if (2 <=? ls_total data)
              && Qleb 0.6 (inject_Z (ls_correct data) / inject_Z (ls_total data))
           then level else determinedLevel
       | None => determinedLevel
       end)
    levels "A1".

(** A section's entry of the results. *)
Record SectionResult := mkSectionResult {
  sr_correct : Z;
  sr_total : Z;
  sr_accuracy : Q;
  sr_level : string;
  sr_byLevel : gmap string LevelScore
}.

(** [levelCounts]: how many sections have each level. *)
Definition countLevels (sectionLevels : list string) : gmap string nat :=
  fold_left (fun levelCounts level =>
               <[level := (default 0 (levelCounts !! level) + 1)%nat]> levelCounts)
            sectionLevels ∅.

(** Calculate overall level from section results. *)
Definition calculateOverallLevel (results : list (string * SectionResult)) : string :=
  let sectionLevels :=
    filter (fun level => level <> EmptyString) (map (fun r => sr_level (snd r)) results) in
  match sectionLevels with
  | [] => "A1"
  | first :: others =>
      (* Find the most common level, weighted towards lower *)
      let levelCounts := countLevels sectionLevels in
      (* If there's a tie, prefer the lower level *)
      let '(maxCount, resultLevel) :=
        fold_left
          (fun '(maxCount, resultLevel) level =>
             if (maxCount <? default 0 (levelCounts !! level))%nat
             then (default 0%nat (levelCounts !! level), level)
             else (maxCount, resultLevel))
          levels (0%nat, "A1") in
      (* Also consider: if lowest section is 2+ levels below average, use it *)
      let minLevel :=
        fold_left (fun min l => if indexOf levels l <? indexOf levels min
                                then l else min)
                  others first in
      let minIdx := indexOf levels minLevel in
      let resultIdx := indexOf levels resultLevel in
      if 2 <=? resultIdx - minIdx then
        (* There's a significant weak area, lower the result *)
        default resultLevel (at_index levels (Z.max 0 (resultIdx - 1)))
      else resultLevel
  end.

(** The section results of [finishTest], in the order the sections were
    entered into [sectionScores]. *)
Definition sectionResults (s : Session) : list (string * SectionResult) :=
  omap (fun section =>
          scores ← sectionScores s !! section;
          Some (section,
                {| sr_correct := ss_correct scores;
                   sr_total := ss_total scores;
                   sr_accuracy :=
                     if 0 <? ss_total scores
                     then inject_Z (ss_correct scores) / inject_Z (ss_total scores)
                     else 0%Q;
                   sr_level := determineSectionLevel (byLevel scores);
                   sr_byLevel := byLevel scores |}))
       sections.

(** What [finishTest] returns (without the recommendation texts). *)
Record Outcome := mkOutcome {
  overallLevel : string;
  results : list (string * SectionResult);
  duration : Z;
  questionsAnswered : nat
}.

(** Finish test and calculate results; saving them to the profile is the
    database's part. *)
Definition finishTest (now : Z) (s : Session) : Outcome * Session :=
  let s :=
    mkSession (startTime s) (currentLevel s) (questions s) (answers s)
              (sectionScores s) (usedQuestionIds s) (questionCount s)
              (levelHistory s) true (Some now) in
  (* Calculate section results *)
  let results := sectionResults s in
  (* Calculate overall level *)
  ({| overallLevel := calculateOverallLevel results;
      results := results;
      duration := now - startTime s;
      questionsAnswered := questionCount s |}, s).

End PlacementTest.

(** * Deck queries of the scheduler *)

Module SM2Deck.

(** Get cards due for review. *)
Definition getDueCards (now : Z) (cards : list SM2.Card) (limit : Z)
    : list SM2.Card :=
  slice0 (Vocabulary.sort_by SM2.nextReview
            (filter (fun card => SM2.nextReview card <= now) cards))
         limit.

(** Get new cards to introduce. *)
Definition getNewCards (cards : list SM2.Card) (limit : Z) : list SM2.Card :=
  slice0 (filter (fun card => SM2.status card = SM2.new) cards) limit.

(** The default limits and horizon. *)
Definition default_due_limit : Z := 20.
Definition default_new_limit : Z := 10.
Definition default_days : nat := 7.

(** Calculate review forecast: entry [i] of the list is [forecast[i]], the
    number of cards whose next review falls on day [i] from now. *)
Definition getForecast (now : Z) (cards : list SM2.Card) (days : nat) : list nat :=
  map (fun i =>
         let dayStart := now + Z.of_nat i * SM2.day in
         let dayEnd := dayStart + SM2.day in
         length (filter (fun card => dayStart <= SM2.nextReview card
                                     /\ SM2.nextReview card < dayEnd) cards))
      (seq 0 days).

End SM2Deck.

(** * Views of the vocabulary *)

Module VocabularyViews.

(** [string.repeat(count)]: a RangeError ([None]) for a negative count. *)
Fixpoint replicate_string (n : nat) (s : string) : string :=
  match n with
  | O => EmptyString
  | S n => s +:+ replicate_string n s
  end.

Definition String_repeat (s : string) (count : Z) : option string :=
  if count <? 0 then None else Some (replicate_string (Z.to_nat count) s).

(** What [renderDefinitionCard] returns: the front of the card and, when
    the answer is shown, the word and its transcription. *)
Record DefinitionView := mkDefinitionView {
  front_definition : string;
  front_hint : string;
  front_prompt : string;
  back : option (string * string)
}.

(** Definition mode: EN definition -> Word.  [None] stands for the
    RangeError of [repeat]; for a word of at least two characters both
    [word[0]] and [word[word.length - 1]] exist. *)
Definition renderDefinitionCard (card : Vocabulary.Card) (showAnswer : bool)
    : option DefinitionView :=
  let word := Vocabulary.word card in
  blanks ← String_repeat "_" (Z.of_nat (String.length word) - 2);
  first ← String.get 0 word;
  last ← String.get (String.length word - 1) word;
  Some {| front_definition := Vocabulary.definition card;
          front_hint := String first (blanks +:+ String last EmptyString);
          front_prompt := "What word is this?";
          back := if showAnswer
                  then Some (word, Vocabulary.transcription card) else None |}.

(** What [getSessionSummary] returns; [duration] and [averageTime] are
    [None] (NaN) for a session that was never started. *)
Record Summary := mkSummary {
  s_mode : option string;
  s_total : nat;
  s_correct : nat;
  s_accuracy : Q;
  s_duration : option Z;
  s_averageTime : option Q;
  s_reviewed : list string
}.

(** Get session summary. *)
Definition getSessionSummary (now : Z) (st : Vocabulary.State) : Summary :=
  let session := Vocabulary.currentSession st in
  let results := Vocabulary.Session.results session in
  let duration := (fun t => now - t) <$> Vocabulary.Session.startTime session in
  let correct := length (filter (fun r => 2 <= Vocabulary.r_quality r) results) in
  let total := length results in
  {| s_mode := Vocabulary.Session.mode session;
     s_total := total;
     s_correct := correct;
     s_accuracy :=
       if (0 <? total)%nat
       then inject_Z (Z.of_nat correct) / inject_Z (Z.of_nat total) else 0%Q;
     s_duration := duration;
     s_averageTime :=
       if (0 <? total)%nat
       then (fun d => inject_Z d / inject_Z (Z.of_nat total))%Q <$> duration
       else Some 0%Q;
     s_reviewed := map Vocabulary.r_word results |}.

(** The per-status counters of one mode. *)
Record StatusCounts := mkStatusCounts {
  n_new : nat;
  n_learning : nat;
  n_review : nat;
  n_learned : nat
}.

(** [counts[status]++]. *)
Definition count_status (status : SM2.Status) (c : StatusCounts) : StatusCounts :=
  match status with
  | SM2.new => mkStatusCounts (S (n_new c)) (n_learning c) (n_review c) (n_learned c)
  | SM2.learning => mkStatusCounts (n_new c) (S (n_learning c)) (n_review c) (n_learned c)
  | SM2.review => mkStatusCounts (n_new c) (n_learning c) (S (n_review c)) (n_learned c)
  | SM2.learned => mkStatusCounts (n_new c) (n_learning c) (n_review c) (S (n_learned c))
  end.

Record Stats := mkStats {
  total : nat;
  receptive : StatusCounts;
  productive : StatusCounts;
  fullyLearned : nat;
  avgSpellingAccuracy : Q
}.

(** Check if word is fully learned. *)
Definition isWordFullyLearned (card : Vocabulary.Card) : bool :=
  (21 <=? SM2.interval (Vocabulary.receptive card))
  && (14 <=? SM2.interval (Vocabulary.productive card))
  && Qleb 0.80 (Vocabulary.spelling_accuracy card).

(** The state of the loop of [getStats]: the statistics so far, and the sum
    and number of the spelling accuracies seen. *)
Record Tally := mkTally {
  t_receptive : StatusCounts;
  t_productive : StatusCounts;
  t_fullyLearned : nat;
  spellingSum : Q;
  spellingCount : nat
}.

Definition tally_card (t : Tally) (card : Vocabulary.Card) : Tally :=
  let tracked := (0 <? length (Vocabulary.spelling_attempts card))%nat in
  {| t_receptive :=
       count_status (SM2.status (Vocabulary.receptive card)) (t_receptive t);
     t_productive :=
       count_status (SM2.status (Vocabulary.productive card)) (t_productive t);
     t_fullyLearned :=
       if isWordFullyLearned card then S (t_fullyLearned t) else t_fullyLearned t;
     spellingSum :=
       if tracked then (spellingSum t + Vocabulary.spelling_accuracy card)%Q
       else spellingSum t;
     spellingCount := if tracked then S (spellingCount t) else spellingCount t |}.

(** Get vocabulary statistics. *)
Definition getStats (st : Vocabulary.State) : Stats :=
  let zero := mkStatusCounts 0 0 0 0 in
  let t := fold_left tally_card (Vocabulary.cards st) (mkTally zero zero 0 0 0) in
  {| total := length (Vocabulary.cards st);
     receptive := t_receptive t;
     productive := t_productive t;
     fullyLearned := t_fullyLearned t;
     avgSpellingAccuracy :=
       if (0 <? spellingCount t)%nat
       then (spellingSum t / inject_Z (Z.of_nat (spellingCount t)))%Q else 0%Q |}.

End VocabularyViews.

(** * The stored vocabulary *)

Module Database.

(** [vocab.findIndex(v => v.word === word)]: the first position, or -1. *)
Fixpoint findIndex (word : string) (vocab : list Vocabulary.Card) : Z :=
  match vocab with
  | [] => -1
  | v :: rest =>
      if decide (Vocabulary.word v = word) then 0
      else let i := findIndex word rest in if i <? 0 then -1 else i + 1
  end.

(** Save vocabulary card: the update of the stored list (the copy sent to
    the remote store is not modelled). *)
Definition saveVocabularyCard (card : Vocabulary.Card)
    (vocab : list Vocabulary.Card) : list Vocabulary.Card :=
  let index := findIndex (Vocabulary.word card) vocab in
  if 0 <=? index then <[Z.to_nat index := card]> vocab
  else vocab ++ [card].

End Database.

(** * Topics of the grammar journey *)

Module GrammarTopics.

(** A timestamp used as a condition: [null] and 0 are falsy. *)
Definition truthyTime (t : option Z) : bool :=
  match t with
  | Some v => negb (v =? 0)
  | None => false
  end.

(** Get topic status (new, in_progress, completed). *)
Definition getTopicStatus (topicId : string) (st : Grammar.State) : string :=
  match Grammar.progress st !! topicId with
  | None => "new"
  | Some progress =>
      if negb (truthyTime (Grammar.startedAt progress)) then "new"
      else if truthyTime (Grammar.completedAt progress) then "completed"
      else "in_progress"
  end.

(** Get topic progress. *)
Definition getTopicProgress (topicId : string) (st : Grammar.State)
    : Grammar.Progress :=
  default Grammar.defaultProgress (Grammar.progress st !! topicId).

(** What [startTopic] returns: [{ success: false }] or the progress and the
    current phase. *)
Inductive Started :=
  | NotFound
  | Resumed (progress : Grammar.Progress) (currentPhase : string).

(** Start grammar journey for topic.  [found] tells whether loading the
    topic produced any data; the data itself is content and not modelled. *)
Definition startTopic (now : Z) (topicId : string) (found : bool)
    (st : Grammar.State) : Started * Grammar.State :=
  let st :=
    Grammar.mkState (Grammar.progress st) (Some topicId) (Grammar.currentPhase st) in
  if negb found then (NotFound, st)
  else
    (* Initialize progress if new *)
    let progress :=
      match Grammar.progress st !! topicId with
      | Some p => p
      | None =>
          let p := getTopicProgress topicId st in
          Grammar.mkProgress (Grammar.phases p) (Grammar.testScore p)
                             (Grammar.acquired p) (Some now) (Grammar.completedAt p)
      end in
    (* Determine current phase *)
    let phase := Grammar.determineCurrentPhase progress in
    (Resumed progress phase,
     Grammar.mkState (<[topicId := progress]> (Grammar.progress st))
                     (Some topicId) (Some phase)).

(** Navigate to specific phase: [None] for a phase outside the order,
    otherwise the phase and the progress of the current topic (looked up
    under the key "null" when no topic is current). *)
Definition goToPhase (phase : string) (st : Grammar.State)
    : option (string * option Grammar.Progress) * Grammar.State :=
  if bool_decide (phase ∈ Grammar.PHASE_ORDER) then
    (Some (phase, Grammar.progress st !! default "null" (Grammar.currentTopic st)),
     Grammar.mkState (Grammar.progress st) (Grammar.currentTopic st) (Some phase))
  else (None, st).

(** An entry of the topic table, with the level [getNextTopic] adds when it
    suggests a topic of the next level. *)
Record Topic := mkTopic {
  topic_id : string;
  topic_name : string;
  topic_name_ru : string;
  suggestedLevel : option string
}.

Definition levels : list string := ["A1"; "A2"; "B1"; "B2"; "C1"].

(** [!progress || !progress.completedAt]. *)
Definition incomplete (st : Grammar.State) (topic : Topic) : bool :=
  match Grammar.progress st !! topic_id topic with
  | None => true
  | Some progress => negb (truthyTime (Grammar.completedAt progress))
  end.

(** Get recommended next topic, over the topic table [TOPICS]. *)
Definition getNextTopic (TOPICS : gmap string (list Topic)) (userLevel : string)
    (st : Grammar.State) : option Topic :=
  let levelTopics := default [] (TOPICS !! userLevel) in
  (* Find first incomplete topic *)
  match filter (fun topic => incomplete st topic = true) levelTopics with
  | topic :: _ => Some topic
  | [] =>
      (* All completed at this level, try next level *)
      let currentIdx := indexOf levels userLevel in
      if currentIdx <? Z.of_nat (length levels) - 1 then
        match at_index levels (currentIdx + 1) with
        | Some nextLevel =>
            match default [] (TOPICS !! nextLevel) with
            | first :: _ =>
                Some (mkTopic (topic_id first) (topic_name first)
                              (topic_name_ru first) (Some nextLevel))
            | [] => None
            end
        | None => None
        end
      else None
  end.

End GrammarTopics.

(** * The report of the placement test *)

Module PlacementReport.

(** The weak area of a recommendation. *)
Record WeakArea := mkWeakArea {
  wa_section : string;
  wa_accuracy : Q;
  wa_percent : Z
}.

(** The loop of [getRecommendation] that finds the weakest section. *)
Definition findWeakest (results : list (string * PlacementTest.SectionResult))
    : option string * Q :=
  fold_left
    (fun '(weakestSection, lowestAccuracy) '(section, data) =>
       if (3 <=? PlacementTest.sr_total data)
          && Qltb (PlacementTest.sr_accuracy data) lowestAccuracy
       then (Some section, PlacementTest.sr_accuracy data)
       else (weakestSection, lowestAccuracy))
    results (None, 1%Q).

(** Get recommendation based on level and section results: the level and
    the weak area (the recommendation texts are constants and left out).
    The weak area is [null] when [weakestSection] is falsy: [null], or the
    empty string. *)
Definition getRecommendation (level : string)
    (results : list (string * PlacementTest.SectionResult))
    : string * option WeakArea :=
  let '(weakestSection, lowestAccuracy) := findWeakest results in
  (level,
   match weakestSection with
   | Some section =>
       if decide (section = EmptyString) then None
       else Some (mkWeakArea section lowestAccuracy
                             (Math_round (lowestAccuracy * 100)))
   | None => None
   end).

End PlacementReport.

(** * Runs of the placement test *)

Module PlacementRun.
Import PlacementTest.

(** The states the module goes through once [startTest] has run: calls of
    [getNextQuestion], whatever they return, and calls of [submitAnswer]
    that return (a call that raises ends the run). *)
Inductive reachable : State -> Prop :=
  | reach_start now st : reachable (startTest now st)
  | reach_ask fuel random st :
      reachable st -> reachable (snd (getNextQuestion fuel random st))
  | reach_submit answerIndex st s verdict s' :
      reachable st -> testSession st = Some s ->
      submitAnswer answerIndex s = Some (verdict, s') ->
      reachable (set_session s' st).

End PlacementRun.

(** * Properties *)

(** ** Arithmetic helpers *)

Lemma Qleb_le x y : Qleb x y = true <-> (x <= y)%Q.
Proof. apply Qle_bool_iff. Qed.

Lemma Qleb_gt x y : Qleb x y = false <-> (y < x)%Q.
Proof.
  unfold Qleb. destruct (Qle_bool x y) eqn:E.
  - apply Qle_bool_iff in E. split; [discriminate | intros H; exfalso; lra].
  - split; [intros _ | reflexivity].
    destruct (Qlt_le_dec y x) as [H | H]; [exact H |].
    apply Qle_bool_iff in H. congruence.
Qed.

Lemma Qltb_lt x y : Qltb x y = true <-> (x < y)%Q.
Proof.
  unfold Qltb. rewrite negb_true_iff. apply Qleb_gt.
Qed.

Lemma Qltb_ge x y : Qltb x y = false <-> (y <= x)%Q.
Proof.
  unfold Qltb. rewrite negb_false_iff. apply Qleb_le.
Qed.

Lemma Math_round_nonneg (x : Q) : (0 <= x)%Q -> 0 <= Math_round x.
Proof.
  intros H. unfold Math_round.
  change 0 with (Qfloor 0). apply Qfloor_resp_le. lra.
Qed.

Lemma Math_round_ge (n : Z) (x : Q) : (inject_Z n <= x)%Q -> n <= Math_round x.
Proof.
  intros H. unfold Math_round.
  rewrite <- (Qfloor_Z n). apply Qfloor_resp_le. lra.
Qed.

(** ** The card scheduler *)

Section SM2_facts.
Import SM2.

Lemma clamp_bounds (x : Q) :
  (minEaseFactor <= Qmax minEaseFactor (Qmin maxEaseFactor x) <= maxEaseFactor)%Q.
Proof.
  split; [apply Q.le_max_l |].
  apply Q.max_lub; [unfold minEaseFactor, maxEaseFactor; lra | apply Q.le_min_l].
Qed.

Lemma lapse_bounds (x : Q) :
  (x <= maxEaseFactor)%Q ->
  (minEaseFactor <= Qmax (x - 0.2) minEaseFactor <= 2.8)%Q.
Proof.
  unfold maxEaseFactor, minEaseFactor. intros Hx.
  split; [apply Q.le_max_r |].
  apply Q.max_lub; lra.
Qed.

(** What every card built by [createCard] and advanced by [processAnswer]
    satisfies.  A card in the learning phase has an ease factor of at most
    2.8, which leaves room for the unclamped [+ 0.15] of an EASY answer. *)
Record card_inv (c : Card) : Prop := {
  inv_ease_min : (minEaseFactor <= easeFactor c)%Q;
  inv_ease_max : (easeFactor c <= maxEaseFactor)%Q;
  inv_ease_learning :
    status c = new \/ status c = learning -> (easeFactor c <= 2.8)%Q;
  inv_interval : 0 <= interval c;
  inv_new : status c = new -> interval c = 0;
  inv_review : status c = review -> 1 <= interval c < 21;
  inv_learned : status c = learned -> 21 <= interval c
}.

(** Closes one field of [card_inv] once the card has been evaluated. *)
Ltac card_field :=
  first [ lia | lra | congruence | tauto
        | intros [? | ?]; first [ lra | congruence | tauto ]
        | intros ?; first [ lia | lra | congruence | tauto ] ].

Lemma createCard_inv now w : card_inv (createCard now w).
Proof.
  split; cbn; unfold defaultEaseFactor, minEaseFactor, maxEaseFactor;
    try lra; try lia; try discriminate; intros _; lra.
Qed.

Lemma processLearning_inv now c quality :
  status c = new \/ status c = learning ->
  card_inv c -> card_inv (processLearning now c quality).
Proof.
  intros Hst [Hmin Hmax Hl Hi Hn Hr Hd].
  specialize (Hl Hst).
  unfold processLearning, minEaseFactor, maxEaseFactor in *.
  destruct (quality =? AGAIN); [|destruct (quality =? HARD);
    [|destruct (quality =? GOOD); [|destruct (quality =? EASY)]]];
  cbn [learningStep set_learningStep set_nextReview status];
  repeat match goal with
  | |- context [(?a <=? ?b)%nat] => destruct (a <=? b)%nat
  end;
  cbn [status set_status set_interval set_nextReview set_easeFactor
       set_learningStep];
  repeat case_decide; try congruence;
  split; cbn; unfold graduatingInterval, easyInterval, minEaseFactor, maxEaseFactor;
  card_field.
Qed.

Lemma processReview_inv now c quality :
  status c = review \/ status c = learned ->
  card_inv c -> card_inv (processReview now c quality).
Proof.
  intros Hst [Hmin Hmax Hl Hi Hn Hr Hd].
  assert (Hpos : 1 <= interval c) by (destruct Hst as [H | H]; [apply Hr in H | apply Hd in H]; lia).
  unfold processReview.
  destruct (quality =? AGAIN).
  - destruct (lapse_bounds (easeFactor c) Hmax) as [L1 L2].
    split; cbn; unfold maxEaseFactor in *; card_field.
  - cbn [interval set_interval set_easeFactor set_repetitions easeFactor].
    set (ef := Qmax minEaseFactor (Qmin maxEaseFactor _)).
    assert (E : (minEaseFactor <= ef <= maxEaseFactor)%Q) by apply clamp_bounds.
    destruct E as [E1 E2].
    set (c' := if quality =? HARD then _ else _).
    assert (Hgrow : interval c <= interval c' /\ easeFactor c' = ef
                    /\ status c' = status c).
    { subst c'. unfold minEaseFactor in E1.
      assert (0 <= inject_Z (interval c))%Q
        by (change 0%Q with (inject_Z 0); rewrite <- Zle_Qle; lia).
      destruct (quality =? HARD); [|destruct (quality =? GOOD);
        [|destruct (quality =? EASY)]];
        cbn [interval easeFactor status set_interval set_easeFactor
             set_repetitions];
        (split; [|split; reflexivity]);
        try lia; apply Math_round_ge; nra. }
    destruct Hgrow as (G1 & G2 & G3).
    cbn [interval set_nextReview].
    destruct (21 <=? interval c') eqn:E21;
      [apply Z.leb_le in E21 | apply Z.leb_gt in E21];
      split;
      cbn [interval easeFactor status set_interval set_easeFactor
           set_status set_nextReview];
      rewrite ?G2, ?G3; unfold maxEaseFactor, minEaseFactor in *;
      try card_field;
      destruct Hst as [Hst | Hst]; try card_field;
      intros _; apply Hd in Hst; lia.
Qed.

Lemma processAnswer_inv now c quality :
  card_inv c -> card_inv (processAnswer now c quality).
Proof.
  intros Hc. unfold processAnswer.
  assert (Hc' : card_inv (set_lastReview (Some now) c)) by (destruct Hc; split; assumption).
  case_decide as Hst.
  - apply processLearning_inv; assumption.
  - apply processReview_inv; [|assumption].
    cbn in Hst |- *. destruct (status c); tauto.
Qed.

Lemma answers_inv c history : card_inv c -> card_inv (answers c history).
Proof.
  revert c. induction history as [|a rest IH]; intros c Hc; [exact Hc |].
  cbn. apply IH, processAnswer_inv, Hc.
Qed.

Lemma trace_inv c history : card_inv c -> Forall card_inv (trace c history).
Proof.
  revert c. induction history as [|a rest IH]; intros c Hc; cbn.
  - constructor.
  - constructor; [|apply IH]; apply processAnswer_inv, Hc.
Qed.

(** The property "learned exactly when the interval is at least 21". *)
Definition learned_iff_threshold (c : Card) : Prop :=
  status c = learned <-> 21 <= interval c.

(** The history EASY, EASY, EASY, AGAIN on a fresh card: the card is learned
    after the third answer (interval 52) and lapses on the fourth. *)
Definition lapse_history : list (Z * Z) :=
  [(1000, EASY); (2000, EASY); (3000, EASY); (4000, AGAIN)].

(** C1, counterexample: after EASY, EASY, EASY, AGAIN a fresh card has status
    'learning' while its interval is still 52, so "interval >= 21 implies
    learned" fails after a [processAnswer] call. *)
Lemma learned_threshold_counterexample :
  let c := answers (createCard 0 "cat") lapse_history in
  status c = learning /\ interval c = 52 /\ ~ learned_iff_threshold c.
Proof.
  vm_compute. split; [reflexivity | split; [reflexivity |]].
  intros [_ H]. discriminate H. discriminate.
Qed.

(** C1, amended: for every card reached from [createCard] by [processAnswer]
    calls, status 'learned' implies interval >= 21, and interval >= 21
    implies status 'learned' or 'learning' (a lapse keeps the interval). *)
Theorem learned_threshold (now : Z) (w : string) (history : list (Z * Z)) :
  let c := answers (createCard now w) history in
  (status c = learned -> 21 <= interval c) /\
  (21 <= interval c -> status c = learned \/ status c = learning).
Proof.
  intros c.
  destruct (answers_inv (createCard now w) history (createCard_inv now w))
    as [_ _ _ _ Hn Hr Hd].
  fold c in Hn, Hr, Hd. split; [exact Hd |].
  intros H. destruct (status c); auto.
  - specialize (Hn eq_refl). lia.
  - specialize (Hr eq_refl). lia.
Qed.

(** C2: for every card created by [createCard] and every finite sequence of
    ratings in {AGAIN, HARD, GOOD, EASY}, the ease factor is within
    [1.3, 3.0] and the interval is non-negative at creation and after every
    answer. *)
Theorem easeFactor_interval_bounds (now : Z) (w : string) (history : list (Z * Z)) :
  Forall (fun a => validQuality (snd a)) history ->
  Forall (fun c => (1.3 <= easeFactor c <= 3.0)%Q /\ 0 <= interval c)
         (createCard now w :: trace (createCard now w) history).
Proof.
  intros _.
  assert (H : Forall card_inv (createCard now w :: trace (createCard now w) history)).
  { constructor; [apply createCard_inv | apply trace_inv, createCard_inv]. }
  eapply Forall_impl; [exact H |].
  intros c [Hmin Hmax _ Hi _ _ _]. unfold minEaseFactor, maxEaseFactor in *.
  repeat split; assumption.
Qed.

Lemma easeFactor_interval_bounds_witness :
  Forall (fun a => validQuality (snd a)) lapse_history /\
  Forall (fun c => (1.3 <= easeFactor c <= 3.0)%Q /\ 0 <= interval c)
         (createCard 0 "cat" :: trace (createCard 0 "cat") lapse_history).
Proof.
  assert (H : Forall (fun a => validQuality (snd a)) lapse_history).
  { unfold lapse_history, validQuality. repeat constructor; cbn; tauto. }
  split; [exact H | exact (easeFactor_interval_bounds 0 "cat" lapse_history H)].
Defined.

(** C8: a fresh card answered GOOD, GOOD is in status 'review' with interval
    1; a following EASY raises the ease factor to 2.6 and sets the interval
    to round(1 * 2.6 * 1.3) = 3. *)
Theorem good_good_easy (now t1 t2 t3 : Z) (w : string) :
  let fresh := createCard now w in
  let c2 := answers fresh [(t1, GOOD); (t2, GOOD)] in
  let c3 := processAnswer t3 c2 EASY in
  (status fresh = new /\ (easeFactor fresh == 2.5)%Q /\ interval fresh = 0) /\
  (status c2 = review /\ interval c2 = 1) /\
  ((easeFactor c3 == 2.6)%Q /\ interval c3 = Math_round (1 * 2.6 * 1.3) /\
   interval c3 = 3).
Proof.
  cbn. repeat split.
Qed.

(** C10: a 'new' card answered AGAIN, HARD, or GOOD below the end of the
    ladder keeps status 'new'; and a card that was not in 'learning' is in
    'learning' after [processAnswer] only through the AGAIN branch of
    [processReview]. *)
Theorem learning_entered_only_by_lapse (now : Z) (card : Card) (quality : Z) :
  (status card = new ->
   quality = AGAIN \/ quality = HARD \/
     (quality = GOOD /\ (S (learningStep card) < length learningSteps)%nat) ->
   status (processAnswer now card quality) = new) /\
  (status card <> learning ->
   status (processAnswer now card quality) = learning ->
   (status card = review \/ status card = learned) /\ quality = AGAIN /\
   processAnswer now card quality
     = processReview now (set_lastReview (Some now) card) quality).
Proof.
  unfold processAnswer. split.
  - intros Hnew Hq. cbn [status set_lastReview].
    case_decide as Hd; [| tauto].
    unfold processLearning.
    destruct Hq as [-> | [-> | [-> Hstep]]]; cbn -[length Nat.leb].
    + rewrite Hnew. case_decide; [congruence | exact Hnew].
    + rewrite Hnew. case_decide; [congruence | exact Hnew].
    + destruct (Nat.leb_spec (length learningSteps) (S (learningStep card)));
        [lia |].
      cbn. rewrite Hnew. case_decide; [congruence | exact Hnew].
  - intros Hnl Hres. cbn [status set_lastReview] in *.
    case_decide as Hd.
    + exfalso. destruct Hd as [Hd | Hd]; [| congruence].
      revert Hres. unfold processLearning.
      destruct (quality =? AGAIN); [|destruct (quality =? HARD);
        [|destruct (quality =? GOOD); [|destruct (quality =? EASY)]]];
      cbn [learningStep set_learningStep set_nextReview status];
      repeat match goal with
      | |- context [(?a <=? ?b)%nat] => destruct (a <=? b)%nat
      end;
      cbn [status set_status set_interval set_nextReview set_easeFactor
           set_learningStep set_lastReview];
      rewrite ?Hd; repeat case_decide; cbn; rewrite ?Hd; congruence.
    + split; [destruct (status card); tauto |]. split; [| reflexivity].
      revert Hres. unfold processReview.
      destruct (Z.eqb_spec quality AGAIN) as [-> | Hne]; [reflexivity |].
      cbn [status set_status set_interval set_nextReview set_easeFactor
           set_learningStep set_lastReview set_repetitions interval].
      repeat match goal with
      | |- context [if ?b then _ else _] => destruct b
      end; cbn; intros; try congruence; destruct (status card); tauto.
Qed.

Lemma learning_entered_only_by_lapse_witness :
  status (processAnswer 5 (createCard 0 "cat") HARD) = new /\
  (let c := answers (createCard 0 "cat") [(1, EASY)] in
   status c <> learning /\ status (processAnswer 2 c AGAIN) = learning /\
   (status c = review \/ status c = learned)).
Proof.
  split.
  - apply (proj1 (learning_entered_only_by_lapse 5 (createCard 0 "cat") HARD));
      [reflexivity | right; left; reflexivity].
  - cbv zeta.
    assert (H1 : status (answers (createCard 0 "cat") [(1, EASY)]) <> learning)
      by (vm_compute; discriminate).
    assert (H2 : status (processAnswer 2 (answers (createCard 0 "cat") [(1, EASY)]) AGAIN)
                 = learning) by reflexivity.
    split; [exact H1 | split; [exact H2 |]].
    exact (proj1 (proj2 (learning_entered_only_by_lapse 2 _ AGAIN) H1 H2)).
Defined.

End SM2_facts.

(** ** The vocabulary review session *)

Section Vocabulary_facts.
Import Vocabulary.

Lemma swap_Permutation {A} (i j : nat) (array : list A) :
  swap i j array ≡ₚ array.
Proof.
  unfold swap.
  destruct (array !! i) as [x|] eqn:Hi; [|reflexivity].
  destruct (array !! j) as [y|] eqn:Hj; [|reflexivity].
  apply Permutation_insert_swap; assumption.
Qed.

(** The shuffle rearranges the queue: no card is lost or added. *)
Lemma shuffleArray_Permutation {A} (randoms : list Q) (array : list A) :
  shuffleArray randoms array ≡ₚ array.
Proof.
  unfold shuffleArray. generalize (length array - 1)%nat as i.
  intros i. revert randoms array.
  induction i as [|i IH]; intros randoms array; [reflexivity |].
  cbn [shuffle_from]. rewrite IH. apply swap_Permutation.
Qed.

Lemma swap_same {A} (x : A) (i j : nat) : swap i j [x; x] = [x; x].
Proof.
  destruct i as [|[|i]], j as [|[|j]]; reflexivity.
Qed.

(** C9: a card returned by [createCard] has [nextReview] equal to its
    creation time in both modes, so it is due at once; and in a vocabulary
    that holds just this card, [startSession] with a limit of at least 2
    queues it twice, at positions 0 and 1 (once as a due card, once as a new
    card), whatever the shuffle draws. *)
Theorem new_card_queued_twice (t now : Z) (wordData : WordData) (mode : string)
    (limit : Z) (randoms : list Q) :
  t <= now -> 2 <= limit ->
  let card := createCard t wordData in
  let st := mkState [card] (currentSession initial) in
  let queue := Session.cards (currentSession (startSession now randoms mode limit st)) in
  SM2.nextReview (receptive card) = t /\
  SM2.nextReview (productive card) = t /\
  getDueCards now mode st = [card] /\
  getNewCards (limit - 1) st = [card] /\
  queue !! 0%nat = Some card /\ queue !! 1%nat = Some card /\ length queue = 2%nat.
Proof.
  intros Ht Hl card st queue.
  assert (Hdue : getDueCards now mode st = [card]).
  { unfold getDueCards, modeKey. cbn [cards st].
    case_decide; cbn; rewrite decide_True by exact Ht; reflexivity. }
  assert (Hnew : getNewCards (limit - 1) st = [card]).
  { unfold getNewCards, slice0. cbn [cards st].
    destruct (Z.ltb_spec (limit - 1) 0); [lia |].
    change (filter _ [card]) with [card].
    apply take_ge. cbn [length]. lia. }
  assert (Hq : queue = [card; card]).
  { subst queue. unfold startSession. cbn [currentSession Session.cards].
    rewrite Hdue. cbn [length].
    replace (limit - Z.min (Z.of_nat 1) limit) with (limit - 1) by lia.
    rewrite Hnew. unfold slice0.
    destruct (Z.ltb_spec limit 0); [lia |].
    rewrite (take_ge [card]) by (cbn [length]; lia).
    cbn [app]. rewrite take_ge by (cbn [length]; lia).
    unfold shuffleArray. cbn [length Nat.sub shuffle_from].
    apply swap_same. }
  rewrite Hq. repeat split; assumption.
Qed.

Definition cat : WordData :=
  mkWordData "cat" None (Some "koshka") None None None (Some "A1") None None.

Lemma new_card_queued_twice_witness :
  let card := createCard 1000 cat in
  let st := mkState [card] (currentSession initial) in
  Session.cards (currentSession (startSession 2000 [0.7%Q] RECEPTIVE default_limit st))
    = [card; card].
Proof.
  pose proof (new_card_queued_twice 1000 2000 cat RECEPTIVE default_limit [0.7%Q])
    as H.
  cbv zeta in H.
  destruct H as (_ & _ & _ & _ & H0 & H1 & Hlen);
    [lia | unfold default_limit; lia |].
  cbv zeta.
  destruct (Session.cards _) as [|a [|b [|c l]]]; try discriminate Hlen.
  cbn in H0, H1. congruence.
Defined.

End Vocabulary_facts.

(** ** The grammar topic state machine *)

Section Grammar_facts.
Import Grammar.

Lemma phases_updateProgress now phase data p :
  phases (updateProgress now phase data p)
  = updatePhases now phase data (phases p).
Proof.
  unfold updateProgress. destruct (isTopicCompleted _); reflexivity.
Qed.

(** The derived phase reads the phase record only. *)
Definition derived (p : Phases) : string :=
  determineCurrentPhase (mkProgress p None false None None).

Lemma determineCurrentPhase_phases progress :
  determineCurrentPhase progress = derived (phases progress).
Proof. reflexivity. Qed.

(** A practice submission that reaches the pass threshold. *)
Definition passes (data : Data) : Prop :=
  exists s, d_score data = Some s /\ (0.7 <= s)%Q.

Ltac phase_cases :=
  unfold derived, determineCurrentPhase, practice_completed, produce_completed;
  cbn [phases discover understand notice practice produce input_flood review
       Practice.completed Produce.completed];
  repeat match goal with
  | |- context [negb ?b] => destruct b; cbn [negb]
  | |- context [match ?o with Some _ => _ | None => _ end] => destruct o
  | |- context [?a <? ?b] => destruct (Z.ltb_spec a b)
  end;
  try lia; try (vm_compute; congruence).

Lemma updatePhases_forward now phase data p :
  phase <> PRACTICE \/ passes data ->
  phaseIndex (derived p) <= phaseIndex (derived (updatePhases now phase data p)).
Proof.
  intros Hok. unfold updatePhases.
  repeat case_decide; subst; try solve [phase_cases].
  destruct Hok as [Hne | (s & Hs & Hpass)]; [congruence |].
  rewrite Hs. apply Qleb_le in Hpass. rewrite Hpass.
  phase_cases.
Qed.

Lemma updatePhases_failed_practice now data p :
  ~ passes data ->
  phaseIndex (derived (updatePhases now PRACTICE data p))
  = Z.min (phaseIndex (derived p)) (phaseIndex PRACTICE).
Proof.
  intros Hfail. unfold updatePhases.
  repeat (case_decide; try discriminate); try congruence.
  assert (Hc : match d_score data with Some s => Qleb 0.7 s | None => false end
               = false).
  { destruct (d_score data) as [s|] eqn:Hs; [| reflexivity].
    destruct (Qleb 0.7 s) eqn:E; [| reflexivity].
    exfalso. apply Hfail. exists s. split; [exact Hs | apply Qleb_le, E]. }
  rewrite Hc. phase_cases.
Qed.

(** A topic with every phase satisfied: the derived phase is 'review'. *)
Definition allDone : Progress :=
  {| phases :=
       {| discover := true;
          understand := true;
          notice := true;
          practice := Some (Practice.mk true 0.9 1);
          produce := Some (Produce.mk true [mkSubmission (Some "I am here.") None 10]);
          input_flood := 5;
          review := Some (Review.mk (Some []) (Some 0%Q) None) |};
     testScore := None;
     acquired := false;
     startedAt := Some 1;
     completedAt := Some 20 |}.

Definition reviewing : State :=
  {| progress := {[ "a1_to_be" := allDone ]};
     currentTopic := Some "a1_to_be";
     currentPhase := Some REVIEW |}.

(** C3, counterexample: on a topic whose derived phase is 'review', a
    'practice' submission with score 0.3 returns 'practice' as the next
    phase, which is earlier in the fixed order. *)
Lemma phase_order_counterexample :
  let before := determineCurrentPhase allDone in
  let call := completePhase 30 PRACTICE (mkData (Some 0.3%Q) None None None) reviewing in
  progress reviewing !! "a1_to_be" = Some allDone /\
  before = REVIEW /\
  (exists p', fst call = Success p' PRACTICE true
              /\ determineCurrentPhase p' = PRACTICE) /\
  phaseIndex PRACTICE < phaseIndex before.
Proof.
  cbv zeta. repeat split.
  eexists. split; reflexivity.
Qed.

(** C3, amended: a [completePhase] call on the current topic returns the
    phase derived from the updated record; that phase is never earlier than
    the one derived before the call when the phase completed is not
    'practice' or the submitted score is at least 0.7, and it is the earlier
    of the previous derived phase and 'practice' when a practice submission
    fails the threshold. *)
Theorem completePhase_order (now : Z) (phase : string) (data : Data)
    (st : State) (topic : string) (p : Progress) :
  currentTopic st = Some topic ->
  progress st !! topic = Some p ->
  exists p' st',
    completePhase now phase data st
      = (Success p' (determineCurrentPhase p') (bool_decide (completedAt p' <> None)),
         st') /\
    progress st' !! topic = Some p' /\
    currentPhase st' = Some (determineCurrentPhase p') /\
    (phase <> PRACTICE \/ passes data ->
     phaseIndex (determineCurrentPhase p)
       <= phaseIndex (determineCurrentPhase p')) /\
    (phase = PRACTICE -> ~ passes data ->
     phaseIndex (determineCurrentPhase p')
       = Z.min (phaseIndex (determineCurrentPhase p)) (phaseIndex PRACTICE)).
Proof.
  intros Ht Hp. unfold completePhase. rewrite Ht, Hp.
  eexists _, _. split; [reflexivity |].
  cbn [progress currentPhase]. split; [apply lookup_insert_eq |].
  split; [reflexivity |].
  rewrite !determineCurrentPhase_phases, phases_updateProgress. split.
  - apply updatePhases_forward.
  - intros ->. apply updatePhases_failed_practice.
Qed.

Lemma completePhase_order_witness :
  exists p' st',
    completePhase 30 INPUT_FLOOD (mkData None None None None) reviewing
      = (Success p' REVIEW true, st') /\
    phaseIndex (determineCurrentPhase allDone)
      <= phaseIndex (determineCurrentPhase p').
Proof.
  destruct (completePhase_order 30 INPUT_FLOOD (mkData None None None None)
              reviewing "a1_to_be" allDone eq_refl eq_refl)
    as (p' & st' & Hcall & _ & _ & Hfwd & _).
  exists p', st'. split.
  - rewrite Hcall. vm_compute in Hcall. injection Hcall as <- _. reflexivity.
  - apply Hfwd. left. discriminate.
Defined.

End Grammar_facts.

(** ** The adaptive placement test *)

Section PlacementTest_facts.
Import PlacementTest.

(** *** Question selection *)

(** The guard at the head of [getNextQuestion]. *)
Definition testEnds (s : Session) : bool :=
  (maxQuestions <=? questionCount s)%nat || shouldEndTest s.

(** No unused question for the section of the next question, at the current
    level or at the adjacent levels tried. *)
Definition sectionExhausted (random : Q) (st : State) (s : Session) : Prop :=
  selectQuestion (questionBanks st) random (sectionFor (questionCount s))
                 (currentLevel s) (usedQuestionIds s) = None /\
  selectAdjacent (questionBanks st) random (sectionFor (questionCount s))
                 (adjacentLevels (currentLevel s)) (usedQuestionIds s) = None.

Example adjacentLevels_B1 : adjacentLevels "B1" = ["B2"; "A2"; "C1"; "A1"].
Proof. reflexivity. Qed.

Example adjacentLevels_A1 : adjacentLevels "A1" = ["A2"; "B1"].
Proof. reflexivity. Qed.

Lemma getNextQuestion_finished fuel random st s :
  testSession st = Some s -> testEnds s = true ->
  getNextQuestion (S fuel) random st = (Finished, st).
Proof.
  unfold testEnds. intros Hs He. cbn [getNextQuestion]. rewrite Hs, He.
  reflexivity.
Qed.

(** A question at the current level is asked, and counted. *)
Lemma getNextQuestion_current fuel random st s question :
  testSession st = Some s -> testEnds s = false ->
  selectQuestion (questionBanks st) random (sectionFor (questionCount s))
                 (currentLevel s) (usedQuestionIds s) = Some question ->
  exists formatted s',
    getNextQuestion (S fuel) random st = (Question_ formatted, set_session s' st) /\
    questionCount s' = S (questionCount s) /\
    f_level formatted = currentLevel s.
Proof.
  unfold testEnds. intros Hs He Hq. cbn [getNextQuestion]. rewrite Hs, He, Hq.
  eexists _, _. split; [reflexivity |]. split; [reflexivity |].
  cbn. unfold selectQuestion in Hq.
  destruct (availableQuestions _ _ _ _) as [[|q qs]|]; try discriminate.
  destruct (_ !! _); [|discriminate]. cbn in Hq. injection Hq as <-. reflexivity.
Qed.

(** With the current level exhausted, the first adjacent level that has a
    question provides it. *)
Lemma getNextQuestion_adjacent fuel random st s altQuestion :
  testSession st = Some s -> testEnds s = false ->
  selectQuestion (questionBanks st) random (sectionFor (questionCount s))
                 (currentLevel s) (usedQuestionIds s) = None ->
  selectAdjacent (questionBanks st) random (sectionFor (questionCount s))
                 (adjacentLevels (currentLevel s)) (usedQuestionIds s)
    = Some altQuestion ->
  exists formatted s',
    getNextQuestion (S fuel) random st = (Question_ formatted, set_session s' st) /\
    questionCount s' = S (questionCount s).
Proof.
  unfold testEnds. intros Hs He Hq Ha. cbn [getNextQuestion].
  rewrite Hs, He, Hq, Ha. eexists _, _. split; reflexivity.
Qed.

(** With the section exhausted at every level tried, the call re-enters
    itself on the unchanged state: no depth of recursion returns. *)
Lemma getNextQuestion_stuck fuel random st s :
  testSession st = Some s -> testEnds s = false ->
  sectionExhausted random st s ->
  getNextQuestion fuel random st = (Unfinished, st).
Proof.
  unfold testEnds. intros Hs He [Hq Ha].
  induction fuel as [|fuel IH]; [reflexivity |].
  cbn [getNextQuestion]. rewrite Hs, He, Hq, Ha. exact IH.
Qed.

(** Banks in which only level A2 loaded, with a vocabulary section and no
    grammar section. *)
Definition meaning : Question :=
  mkQuestion "v1" 2 ["big"; "small"; "quick"; "late"] None.

Definition vocabularyOnly : gmap string Bank :=
  {[ "A2" := mkBank "A2" 1 [meaning] {[ "vocabulary" := [meaning] ]} ]}.

(** C4, failing input: on a freshly started test whose banks hold a
    vocabulary question but no grammar question, [getNextQuestion] never
    returns (every depth of recursion leaves the call unfinished, on the
    unchanged state), although the next section has a question to offer. *)
Theorem getNextQuestion_no_progress (fuel : nat) (random : Q) (now : Z) :
  let st := startTest now (mkState None vocabularyOnly) in
  getNextQuestion fuel random st = (Unfinished, st) /\
  sectionFor 0 = "grammar" /\ sectionFor 1 = "vocabulary" /\
  availableQuestions vocabularyOnly "vocabulary" "A2" ∅ = Some [meaning].
Proof.
  intros st. split; [| repeat split].
  eapply getNextQuestion_stuck; [reflexivity | reflexivity |].
  split; reflexivity.
Qed.

(** *** Termination of the test *)

Lemma length_slice_last {A} (n : nat) (l : list A) :
  length (slice_last n l) = Nat.min n (length l).
Proof. unfold slice_last. rewrite length_drop. lia. Qed.

(** A non-empty list has exactly one distinct element when all its elements
    are the same. *)
Lemma one_distinct (l : list string) :
  l <> [] ->
  size (list_to_set l : gset string) = 1%nat
  <-> exists x, forall y, y ∈ l -> y = x.
Proof.
  intros Hne. split.
  - intros Hsize. apply size_1_elem_of in Hsize as [x Hx].
    exists x. intros y Hy.
    assert (y ∈ (list_to_set l : gset string)) as Hin
      by (apply elem_of_list_to_set, Hy).
    rewrite Hx in Hin. apply elem_of_singleton in Hin. exact Hin.
  - intros [x Hall].
    assert ((list_to_set l : gset string) = {[x]}) as ->.
    { apply set_eq. intros y. rewrite elem_of_list_to_set, elem_of_singleton.
      split; [apply Hall |]. intros ->.
      destruct l as [|z l]; [congruence |].
      rewrite (Hall z) by left. left. }
    apply size_singleton.
Qed.

(** The levels of the last [stabilityWindow] answered questions. *)
Definition recentLevels (s : Session) : list string :=
  map h_level (slice_last stabilityWindow (levelHistory s)).

(** The level has been the same over a full stability window. *)
Definition stable (s : Session) : Prop :=
  (stabilityWindow <= length (levelHistory s))%nat /\
  exists level, forall l, l ∈ recentLevels s -> l = level.

Lemma shouldEndTest_spec s :
  shouldEndTest s = true <-> (minQuestions <= questionCount s)%nat /\ stable s.
Proof.
  unfold shouldEndTest, stable, recentLevels.
  destruct (Nat.ltb_spec (questionCount s) minQuestions) as [Hlt | Hge].
  { split; [discriminate | intros [? _]; lia]. }
  rewrite length_slice_last.
  destruct (Nat.ltb_spec (Nat.min stabilityWindow (length (levelHistory s)))
                         stabilityWindow) as [Hshort | Hfull].
  { split; [discriminate | intros (_ & ? & _); lia]. }
  rewrite bool_decide_eq_true, one_distinct.
  - split; [intros H; repeat split; [lia | lia | exact H] | intros (_ & _ & H); exact H].
  - intros Hnil. apply (f_equal length) in Hnil.
    rewrite length_map, length_slice_last in Hnil.
    unfold stabilityWindow in *. cbn [length] in Hnil. lia.
Qed.

(** While the guard is false no depth of recursion reports the end. *)
Lemma getNextQuestion_not_finished fuel random st s :
  testSession st = Some s -> testEnds s = false ->
  fst (getNextQuestion fuel random st) <> Finished.
Proof.
  unfold testEnds. intros Hs He.
  induction fuel as [|fuel IH]; [discriminate |].
  cbn [getNextQuestion]. rewrite Hs, He.
  destruct (selectQuestion _ _ _ _ _); [discriminate |].
  destruct (selectAdjacent _ _ _ _ _); [discriminate | exact IH].
Qed.

(** The end of the test: [getNextQuestion] reports it exactly when 70
    questions have been asked, or at least 50 have been asked and the last
    10 answered questions have one and the same level; with fewer than 50
    questions asked, or with two different levels among the last 10 answers
    and fewer than 70 asked, it does not.  Whether a question is asked then
    is another matter: see [question_asked_when_available] and
    [test_neither_ends_nor_continues]. *)
Lemma test_ends_exactly (fuel : nat) (random : Q) (st : State) (s : Session) :
  testSession st = Some s ->
  let ends := fst (getNextQuestion (S fuel) random st) = Finished in
  (ends <-> (maxQuestions <= questionCount s)%nat \/
            ((minQuestions <= questionCount s)%nat /\ stable s)) /\
  ((questionCount s < minQuestions)%nat -> ~ ends) /\
  ((questionCount s < maxQuestions)%nat ->
   (exists l1 l2, l1 ∈ recentLevels s /\ l2 ∈ recentLevels s /\ l1 <> l2) ->
   ~ ends).
Proof.
  intros Hs ends.
  assert (Hiff : ends <-> (maxQuestions <= questionCount s)%nat \/
                          ((minQuestions <= questionCount s)%nat /\ stable s)).
  { rewrite <- shouldEndTest_spec, <- Nat.leb_le, <- orb_true_iff.
    fold (testEnds s). subst ends.
    destruct (testEnds s) eqn:He.
    - rewrite (getNextQuestion_finished fuel random st s Hs He). tauto.
    - pose proof (getNextQuestion_not_finished (S fuel) random st s Hs He).
      split; [contradiction | discriminate]. }
  split; [exact Hiff |]. split.
  - intros Hlt He. apply Hiff in He. unfold minQuestions, maxQuestions in *.
    destruct He as [He | [He _]]; lia.
  - intros Hlt (l1 & l2 & H1 & H2 & Hne) He. apply Hiff in He.
    destruct He as [He | (_ & _ & level & Hall)]; [lia |].
    apply Hne. rewrite (Hall l1 H1), (Hall l2 H2). reflexivity.
Qed.

(** *** Level adaptation *)

(** One step up or down the level scale, staying put at its ends. *)
Definition oneStepUp (level : string) : string :=
  if decide (level = "A1") then "A2"
  else if decide (level = "A2") then "B1"
  else if decide (level = "B1") then "B2"
  else if decide (level = "B2") then "C1"
  else level.

Definition oneStepDown (level : string) : string :=
  if decide (level = "C1") then "B2"
  else if decide (level = "B2") then "B1"
  else if decide (level = "B1") then "A2"
  else if decide (level = "A2") then "A1"
  else level.

(** The answers the adaptation looks at: those of the five most recent that
    were given at [level]. *)
Definition recentAt (level : string) (answers : list Answer) : list Answer :=
  filter (fun a => a_level a = level) (slice_last 5 answers).

(** Their accuracy. *)
Definition accuracyOf (answers : list Answer) : Q :=
  inject_Z (Z.of_nat (length (filter (fun a => a_correct a = true) answers)))
  / inject_Z (Z.of_nat (length answers)).

Lemma level_cases (level : string) :
  level ∈ levels ->
  level = "A1" \/ level = "A2" \/ level = "B1" \/ level = "B2" \/ level = "C1".
Proof.
  unfold levels. rewrite !elem_of_cons, elem_of_nil. tauto.
Qed.

Lemma set_currentLevel_same s : set_currentLevel (currentLevel s) s = s.
Proof. destruct s; reflexivity. Qed.

Lemma adaptLevel_level s :
  currentLevel s ∈ levels ->
  let considered := recentAt (currentLevel s) (answers s) in
  currentLevel (adaptLevel s) =
    if (length (answers s) <? 5)%nat then currentLevel s
    else if (length considered <? 3)%nat then currentLevel s
    else if Qleb 0.7 (accuracyOf considered) then oneStepUp (currentLevel s)
    else if Qltb (accuracyOf considered) 0.4 then oneStepDown (currentLevel s)
    else currentLevel s.
Proof.
  intros Hin considered. unfold adaptLevel.
  rewrite length_slice_last.
  fold (recentAt (currentLevel s) (answers s)). fold considered.
  fold (accuracyOf considered).
  replace (Nat.min 5 (length (answers s)) <? 5)%nat
    with (length (answers s) <? 5)%nat
    by (destruct (Nat.ltb_spec (length (answers s)) 5),
                 (Nat.ltb_spec (Nat.min 5 (length (answers s))) 5); lia).
  destruct (length (answers s) <? 5)%nat; [reflexivity |].
  destruct (length considered <? 3)%nat; [reflexivity |].
  unfold adaptiveThreshold, moveDownThreshold.
  apply level_cases in Hin.
  destruct (Qleb 0.7 (accuracyOf considered));
    [| destruct (Qltb (accuracyOf considered) 0.4); [| reflexivity]];
    destruct Hin as [E | [E | [E | [E | E]]]]; rewrite E;
    match goal with
    | |- context [indexOf levels ?l] =>
        let i := eval vm_compute in (indexOf levels l) in
        change (indexOf levels l) with i
    end;
    match goal with
    | |- _ = ?f ?l =>
        let r := eval vm_compute in (f l) in change (f l) with r
    end;
    cbn; exact E || reflexivity.
Qed.

Lemma adaptLevel_answers s : answers (adaptLevel s) = answers s.
Proof.
  unfold adaptLevel.
  repeat match goal with
  | |- context [if ?b then _ else _] => destruct b
  | |- context [match ?o with Some _ => _ | None => _ end] => destruct o
  end; reflexivity.
Qed.

(** The session of a state, for states that have one. *)
Definition sessionOf (st : State) : Session :=
  default (mkSession 0 "A2" [] [] ∅ ∅ 0 [] false None) (testSession st).

(** The current level stays on the scale: it starts at A2 and only
    [adaptLevel] changes it. *)
Lemma adaptLevel_in_levels s :
  currentLevel s ∈ levels -> currentLevel (adaptLevel s) ∈ levels.
Proof.
  intros Hin. rewrite (adaptLevel_level s Hin). cbv zeta.
  repeat match goal with
  | |- context [if ?b then _ else _] => destruct b
  end; try exact Hin;
  apply level_cases in Hin;
  destruct Hin as [-> | [-> | [-> | [-> | ->]]]];
  apply (bool_decide_unpack _); vm_compute; exact I.
Qed.

Lemma startTest_level now st :
  currentLevel (sessionOf (startTest now st)) = "A2".
Proof. reflexivity. Qed.

(** C6, amended: after every answered question, once at least five answers
    are recorded: if at least 3 of the most recent 5 answers are at the
    current level, their accuracy decides; accuracy >= 0.7 moves the level
    up one step unless it is C1, accuracy < 0.4 moves it down one step
    unless it is A1, and otherwise (also with fewer than five answers, or
    fewer than three at the current level) the level is unchanged. *)
Theorem level_adaptation (answerIndex : Z) (s s' : Session) (verdict : Verdict) :
  currentLevel s ∈ levels ->
  submitAnswer answerIndex s = Some (verdict, s') ->
  let considered := recentAt (currentLevel s) (answers s') in
  length (answers s') = S (length (answers s)) /\
  ((length (answers s') < 5)%nat \/ (length considered < 3)%nat ->
   currentLevel s' = currentLevel s) /\
  ((5 <= length (answers s'))%nat -> (3 <= length considered)%nat ->
   ((0.7 <= accuracyOf considered)%Q ->
    currentLevel s' = oneStepUp (currentLevel s)) /\
   ((accuracyOf considered < 0.4)%Q ->
    currentLevel s' = oneStepDown (currentLevel s)) /\
   ((0.4 <= accuracyOf considered)%Q /\ (accuracyOf considered < 0.7)%Q ->
    currentLevel s' = currentLevel s)) /\
  oneStepUp "C1" = "C1" /\ oneStepDown "A1" = "A1".
Proof.
  intros Hin Hsub considered. unfold submitAnswer in Hsub.
  destruct (last (questions s)) as [currentQuestion|]; [|discriminate].
  cbn [mbind option_bind] in Hsub.
  destruct (sectionScores s !! _) as [scores|]; [|discriminate].
  cbn [mbind option_bind] in Hsub.
  destruct (byLevel scores !! _) as [levelScore|]; [|discriminate].
  cbn [mbind option_bind] in Hsub.
  injection Hsub as _ <-.
  match goal with
  | |- context [adaptLevel ?x] => set (s1 := x) in *
  end.
  assert (Hlevel : currentLevel s1 = currentLevel s) by reflexivity.
  assert (Hlen : length (answers s1) = S (length (answers s)))
    by (cbn [s1 answers]; rewrite length_app; cbn; lia).
  pose proof (adaptLevel_level s1) as Hadapt.
  rewrite Hlevel in Hadapt. specialize (Hadapt Hin). cbv zeta in Hadapt.
  subst considered. rewrite adaptLevel_answers in *.
  set (considered := recentAt (currentLevel s) (answers s1)) in *.
  rewrite Hadapt. clear Hadapt.
  split; [exact Hlen |].
  destruct (Nat.ltb_spec (length (answers s1)) 5) as [H5 | H5].
  { repeat split; try reflexivity; intros; lia. }
  destruct (Nat.ltb_spec (length considered) 3) as [H3 | H3].
  { repeat split; try reflexivity; intros; lia. }
  destruct (Qleb 0.7 (accuracyOf considered)) eqn:Eup;
    [apply Qleb_le in Eup | apply Qleb_gt in Eup].
  { repeat split; try reflexivity; intros; try lia; exfalso; lra. }
  destruct (Qltb (accuracyOf considered) 0.4) eqn:Edown;
    [apply Qltb_lt in Edown | apply Qltb_ge in Edown];
    repeat split; try reflexivity; intros; try lia; exfalso; lra.
Qed.

(** A bank for level A2 with two questions in every section; option 0 is
    the correct answer of each. *)
Definition item (name : string) : Question :=
  mkQuestion name 0 ["right"; "wrong"; "other"; "none"] None.

Definition a2Bank : Bank :=
  mkBank "A2" 8 []
    (list_to_map
       [("grammar", [item "g1"; item "g2"]);
        ("vocabulary", [item "v1"; item "v2"]);
        ("reading", [item "r1"; item "r2"]);
        ("listening_simulation", [item "l1"; item "l2"])]).

(** Ask the next question (drawing 0 from [Math.random]) and answer it. *)
Definition askAndAnswer (st : State) (answerIndex : Z) : State :=
  let st := snd (getNextQuestion 1 0%Q st) in
  match testSession st ≫= submitAnswer answerIndex with
  | Some (_, s) => set_session s st
  | None => st
  end.

(** A test on [a2Bank] after the answers wrong, right, right, wrong, right,
    with the sixth question asked. *)
Definition fiveAnswered : Session :=
  sessionOf
    (snd (getNextQuestion 1 0%Q
            (fold_left askAndAnswer [1; 0; 0; 1; 0]
                       (startTest 0 (mkState None {[ "A2" := a2Bank ]}))))).

(** The same test after the sixth question is answered correctly. *)
Definition sixAnswered : Session :=
  match submitAnswer 0 fiveAnswered with
  | Some (_, s) => s
  | None => fiveAnswered
  end.

Definition sixthVerdict : Verdict :=
  match submitAnswer 0 fiveAnswered with
  | Some (verdict, _) => verdict
  | None => mkVerdict false 0 None
  end.

Lemma sixth_answer : submitAnswer 0 fiveAnswered = Some (sixthVerdict, sixAnswered).
Proof. vm_compute. reflexivity. Qed.

(** C6, counterexample: the level also changes after an answer whose number
    is not a multiple of five.  After five answers at A2 with three correct
    the level is still A2; the sixth answer, correct, makes four of the
    last five correct and moves the level to B1. *)
Lemma adaptation_counterexample :
  submitAnswer 0 fiveAnswered = Some (sixthVerdict, sixAnswered) /\
  map a_correct (answers fiveAnswered) = [false; true; true; false; true] /\
  currentLevel fiveAnswered = "A2" /\
  map a_correct (answers sixAnswered) = [false; true; true; false; true; true] /\
  (length (answers sixAnswered) mod 5 <> 0)%nat /\
  currentLevel sixAnswered = "B1".
Proof.
  split; [exact sixth_answer |].
  split; [vm_compute; reflexivity |].
  split; [vm_compute; reflexivity |].
  split; [vm_compute; reflexivity |].
  split; [vm_compute; discriminate |].
  vm_compute; reflexivity.
Qed.

Lemma level_adaptation_witness :
  currentLevel sixAnswered = oneStepUp (currentLevel fiveAnswered).
Proof.
  assert (Hin : currentLevel fiveAnswered ∈ levels)
    by (apply (bool_decide_unpack _); vm_compute; exact I).
  assert (Hsub : submitAnswer 0 fiveAnswered = Some (sixthVerdict, sixAnswered))
    by (vm_compute; reflexivity).
  pose proof (level_adaptation 0 fiveAnswered sixAnswered sixthVerdict Hin Hsub)
    as (_ & _ & Hmove & _).
  apply Hmove.
  - vm_compute. lia.
  - vm_compute. lia.
  - vm_compute. discriminate.
Defined.

(** *** Scoring at the end of the test *)

(** The position of a level on the scale. *)
Definition position (level : string) : Z := indexOf levels level.

(** A level qualifies in a section: at least 2 questions attempted at that
    level, with accuracy at least 0.6. *)
Definition qualifies (byLevel : gmap string LevelScore) (level : string) : Prop :=
  exists data, byLevel !! level = Some data /\ 2 <= ls_total data /\
    (0.6 <= inject_Z (ls_correct data) / inject_Z (ls_total data))%Q.

(** [level] is the highest qualifying level, or A1 when none qualifies. *)
Definition highestQualifying (byLevel : gmap string LevelScore) (level : string)
    : Prop :=
  level ∈ levels /\
  (forall l, l ∈ levels -> qualifies byLevel l -> position l <= position level) /\
  (qualifies byLevel level \/
   (level = "A1" /\ forall l, l ∈ levels -> ~ qualifies byLevel l)).

(** How many sections have a level. *)
Definition occurrences (level : string) (sectionLevels : list string) : nat :=
  length (filter (fun l => l = level) sectionLevels).

(** [level] is the most frequent section level, the lowest of those that
    tie. *)
Definition mostFrequentLowest (sectionLevels : list string) (level : string)
    : Prop :=
  level ∈ sectionLevels /\
  forall l, l ∈ sectionLevels ->
    (occurrences l sectionLevels <= occurrences level sectionLevels)%nat /\
    (occurrences l sectionLevels = occurrences level sectionLevels ->
     position level <= position l).

(** [level] is the level of the weakest section. *)
Definition weakest (sectionLevels : list string) (level : string) : Prop :=
  level ∈ sectionLevels /\
  forall l, l ∈ sectionLevels -> position level <= position l.

Definition qualifiesb (byLevel : gmap string LevelScore) (level : string) : bool :=
  match byLevel !! level with
  | Some data =>
      (2 <=? ls_total data)
      && Qleb 0.6 (inject_Z (ls_correct data) / inject_Z (ls_total data))
  | None => false
  end.

Lemma qualifiesb_spec byLevel level :
  qualifiesb byLevel level = true <-> qualifies byLevel level.
Proof.
  unfold qualifiesb, qualifies. destruct (byLevel !! level) as [data|].
  - rewrite andb_true_iff, Z.leb_le, Qleb_le. split.
    + intros [H1 H2]. exists data. auto.
    + intros (d & [= <-] & H1 & H2). auto.
  - split; [discriminate | intros (d & [=] & _)].
Qed.

Lemma determineSectionLevel_highest byLevel :
  highestQualifying byLevel (determineSectionLevel byLevel).
Proof.
  assert (Hstep : forall l d,
    match byLevel !! l with
    | Some data =>
        if (2 <=? ls_total data)
           && Qleb 0.6 (inject_Z (ls_correct data) / inject_Z (ls_total data))
        then l else d
    | None => d
    end = if qualifiesb byLevel l then l else d).
  { intros l d. unfold qualifiesb. destruct (byLevel !! l); reflexivity. }
  unfold highestQualifying, determineSectionLevel, levels.
  cbn [fold_left]. rewrite !Hstep. clear Hstep.
  setoid_rewrite <- qualifiesb_spec.
  destruct (qualifiesb byLevel "A1") eqn:Q1, (qualifiesb byLevel "A2") eqn:Q2,
           (qualifiesb byLevel "B1") eqn:Q3, (qualifiesb byLevel "B2") eqn:Q4,
           (qualifiesb byLevel "C1") eqn:Q5;
    (split; [apply (bool_decide_unpack _); vm_compute; exact I |]);
    (split;
     [ intros l Hl Hq; apply level_cases in Hl;
       destruct Hl as [-> | [-> | [-> | [-> | ->]]]];
       solve [ congruence | vm_compute; discriminate ]
     | first [ left; assumption
             | right; split; [reflexivity |];
               intros l Hl Hq; apply level_cases in Hl;
               destruct Hl as [-> | [-> | [-> | [-> | ->]]]]; congruence ] ]).
Qed.

Lemma occurrences_cons level l rest :
  occurrences level (l :: rest)
  = ((if decide (l = level) then 1 else 0) + occurrences level rest)%nat.
Proof.
  unfold occurrences. rewrite filter_cons. case_decide; reflexivity.
Qed.

Lemma occurrences_pos level sectionLevels :
  (0 < occurrences level sectionLevels)%nat <-> level ∈ sectionLevels.
Proof.
  induction sectionLevels as [|l rest IH].
  - cbn. rewrite elem_of_nil. lia.
  - rewrite occurrences_cons, elem_of_cons. case_decide.
    + split; [intros _; left; congruence | lia].
    + rewrite <- IH. split; [intros ?; right; lia |].
      intros [-> | ?]; [congruence | lia].
Qed.

(** [levelCounts[level] || 0] is the number of sections with that level. *)
Lemma countLevels_lookup sectionLevels level :
  default 0%nat (countLevels sectionLevels !! level)
  = occurrences level sectionLevels.
Proof.
  unfold countLevels.
  enough (H : forall (counts : gmap string nat),
            default 0%nat
              (fold_left
                 (fun levelCounts l =>
                    <[l := (default 0 (levelCounts !! l) + 1)%nat]> levelCounts)
                 sectionLevels counts !! level)
            = (default 0%nat (counts !! level)
               + occurrences level sectionLevels)%nat).
  { rewrite H, lookup_empty. reflexivity. }
  induction sectionLevels as [|l rest IH]; intros counts.
  - cbn. lia.
  - cbn [fold_left]. rewrite IH, occurrences_cons.
    destruct (decide (l = level)) as [-> | Hne].
    + rewrite lookup_insert_eq. cbn. lia.
    + rewrite lookup_insert_ne by exact Hne. lia.
Qed.

(** The loop that picks the most common level, over any count function. *)
Lemma mostCommon_loop (count : string -> nat) :
  let '(maxCount, resultLevel) :=
    fold_left
      (fun '(maxCount, resultLevel) level =>
         if (maxCount <? count level)%nat
         then (count level, level) else (maxCount, resultLevel))
      levels (0%nat, "A1") in
  resultLevel ∈ levels /\ maxCount = count resultLevel /\
  forall l, l ∈ levels ->
    (count l <= count resultLevel)%nat /\
    (count l = count resultLevel -> position resultLevel <= position l).
Proof.
  unfold levels. cbn [fold_left].
  repeat match goal with
  | |- context [(?a <? ?b)%nat] => destruct (Nat.ltb_spec a b)
  end;
  (split; [apply (bool_decide_unpack _); vm_compute; exact I |]);
  (split; [lia |]);
  intros l Hl; apply level_cases in Hl;
  destruct Hl as [-> | [-> | [-> | [-> | ->]]]];
  (split; [lia | intros ?; first [lia | vm_compute; discriminate]]).
Qed.

(** The reduction that picks the lowest section level. *)
Lemma lowest_fold (others : list string) (first : string) :
  weakest (first :: others)
    (fold_left (fun min l => if indexOf levels l <? indexOf levels min
                             then l else min)
               others first).
Proof.
  unfold weakest, position.
  revert first. induction others as [|l rest IH]; intros first; cbn [fold_left].
  - split; [left |]. intros l Hl. apply elem_of_cons in Hl as [-> | Hl]; [lia | inversion Hl].
  - destruct (IH (if indexOf levels l <? indexOf levels first then l else first))
      as [Hin Hmin].
    split.
    + apply elem_of_cons in Hin as [-> | Hin].
      * destruct (_ <? _); [right; left | left].
      * right; right; exact Hin.
    + intros x Hx.
      assert (Hhead : indexOf levels
                (fold_left (fun min l => if indexOf levels l <? indexOf levels min
                                         then l else min) rest
                   (if indexOf levels l <? indexOf levels first then l else first))
              <= indexOf levels
                   (if indexOf levels l <? indexOf levels first then l else first))
        by (apply Hmin; left).
      apply elem_of_cons in Hx as [-> | Hx];
        [| apply elem_of_cons in Hx as [-> | Hx]; [| apply Hmin; right; exact Hx]];
        destruct (Z.ltb_spec (indexOf levels l) (indexOf levels first)); lia.
Qed.

Lemma position_bounds level : level ∈ levels -> 0 <= position level <= 4.
Proof.
  intros H. apply level_cases in H.
  destruct H as [-> | [-> | [-> | [-> | ->]]]]; vm_compute; split; discriminate.
Qed.

Lemma filter_nonempty_levels (sectionLevels : list string) :
  Forall (fun l => l ∈ levels) sectionLevels ->
  filter (fun level => level <> EmptyString) sectionLevels = sectionLevels.
Proof.
  induction 1 as [|l rest Hl _ IH]; [reflexivity |].
  rewrite filter_cons, IH. case_decide as Hd; [reflexivity |].
  exfalso. apply level_cases in Hl.
  destruct Hl as [? | [? | [? | [? | ?]]]]; congruence.
Qed.

Lemma calculateOverallLevel_spec (results : list (string * SectionResult)) :
  let sectionLevels := map (fun r => sr_level (snd r)) results in
  let overall := calculateOverallLevel results in
  Forall (fun l => l ∈ levels) sectionLevels ->
  (sectionLevels = [] -> overall = "A1") /\
  (sectionLevels <> [] ->
   exists frequent low,
     mostFrequentLowest sectionLevels frequent /\ weakest sectionLevels low /\
     (2 <= position frequent - position low ->
      overall ∈ levels /\ position overall = position frequent - 1) /\
     (position frequent - position low < 2 -> overall = frequent)).
Proof.
  intros sectionLevels overall Hall. subst overall.
  unfold calculateOverallLevel. fold sectionLevels.
  rewrite (filter_nonempty_levels sectionLevels Hall).
  destruct sectionLevels as [|first others] eqn:Esl.
  { split; [reflexivity | congruence]. }
  split; [discriminate |]. intros _. rewrite <- Esl in *.
  pose proof (mostCommon_loop
                (fun level => default 0%nat (countLevels sectionLevels !! level)))
    as Hloop.
  cbv beta in Hloop.
  destruct (fold_left _ levels (0%nat, "A1")) as [maxCount resultLevel].
  destruct Hloop as (Hin & _ & Hmax).
  setoid_rewrite countLevels_lookup in Hmax.
  pose proof (lowest_fold others first) as Hlow. rewrite <- Esl in Hlow.
  set (minLevel := fold_left _ others first) in *.
  assert (Hlevels : forall l, l ∈ sectionLevels -> l ∈ levels)
    by (apply Forall_forall, Hall).
  assert (Hfreq : mostFrequentLowest sectionLevels resultLevel).
  { split.
    - apply occurrences_pos.
      assert (Hfirst : first ∈ sectionLevels) by (rewrite Esl; left).
      pose proof (proj1 (Hmax first (Hlevels _ Hfirst))).
      apply occurrences_pos in Hfirst. lia.
    - intros l Hl. apply Hmax, Hlevels, Hl. }
  exists resultLevel, minLevel. split; [exact Hfreq |]. split; [exact Hlow |].
  fold (position minLevel). fold (position resultLevel).
  pose proof (position_bounds minLevel (Hlevels _ (proj1 Hlow))) as Hb.
  destruct (Z.leb_spec 2 (position resultLevel - position minLevel)) as [Hgap | Hgap].
  - split; [intros _ | lia].
    apply level_cases in Hin.
    destruct Hin as [E | [E | [E | [E | E]]]]; rewrite E in *;
      match type of Hgap with
      | context [position ?l] =>
          let i := eval vm_compute in (position l) in
          change (position l) with i in Hgap |- *
      end;
      try lia;
      (split; [apply (bool_decide_unpack _); vm_compute; exact I | reflexivity]).
  - split; [lia | reflexivity].
Qed.

Lemma sectionResults_entry s section r :
  (section, r) ∈ sectionResults s ->
  exists scores, sectionScores s !! section = Some scores /\
                 sr_level r = determineSectionLevel (byLevel scores).
Proof.
  unfold sectionResults. rewrite list_elem_of_omap.
  intros (sec & _ & Hr).
  destruct (sectionScores s !! sec) as [scores|] eqn:E; [|discriminate].
  cbn in Hr. injection Hr as -> <-. exists scores. split; [exact E | reflexivity].
Qed.


(** A finished test with section levels B2, B2, A1, C1: B2 is the most
    frequent, the weakest section is at A1, and the overall level is B1. *)
Example overall_pulled_down :
  calculateOverallLevel
    [("grammar", mkSectionResult 10 14 0.7 "B2" ∅);
     ("vocabulary", mkSectionResult 9 14 0.6 "B2" ∅);
     ("reading", mkSectionResult 3 14 0.2 "A1" ∅);
     ("listening_simulation", mkSectionResult 12 14 0.8 "C1" ∅)] = "B1".
Proof. reflexivity. Qed.

End PlacementTest_facts.

(** ** More on the card scheduler *)

Section SM2_more.
Import SM2.

Ltac card_simpl :=
  cbn [status interval easeFactor learningStep nextReview lastReview
       repetitions lapses wordId
       set_status set_interval set_easeFactor set_learningStep set_nextReview
       set_lastReview set_repetitions set_lapses].

(** X1: a card that leaves the learning phase is in status 'review', and it
    got there by GOOD at the end of the ladder (interval 1, due in a day) or
    by EASY (interval 4, due in four days, ease raised by 0.15). *)
Theorem graduation (now : Z) (card : Card) (quality : Z) :
  status card = new \/ status card = learning ->
  let card' := processAnswer now card quality in
  status card' <> new -> status card' <> learning ->
  status card' = review /\
  ((quality = GOOD /\ (length learningSteps <= S (learningStep card))%nat /\
    interval card' = 1 /\ nextReview card' = now + day /\
    easeFactor card' = easeFactor card) \/
   (quality = EASY /\ interval card' = 4 /\ nextReview card' = now + 4 * day /\
    easeFactor card' = (easeFactor card + 0.15)%Q)).
Proof.
  intros Hst card'. subst card'. unfold processAnswer.
  card_simpl. rewrite decide_True by exact Hst.
  unfold processLearning.
  destruct (Z.eqb_spec quality AGAIN) as [-> | HA];
    [| destruct (Z.eqb_spec quality HARD) as [-> | HH];
       [| destruct (Z.eqb_spec quality GOOD) as [-> | HG];
          [| destruct (Z.eqb_spec quality EASY) as [-> | HE]]]];
  card_simpl;
  repeat match goal with
  | |- context [(?a <=? ?b)%nat] => destruct (Nat.leb_spec a b)
  end;
  card_simpl; repeat case_decide; card_simpl;
  intros Hn Hl; try (destruct Hst; congruence);
  (split; [reflexivity |]).
  - left. unfold graduatingInterval, day. repeat split; try assumption; lia.
  - right. unfold easyInterval. repeat split; lia.
Qed.

Lemma graduation_witness :
  let card' := processAnswer 7 (createCard 0 "cat") EASY in
  status card' = review /\ interval card' = 4.
Proof.
  pose proof (graduation 7 (createCard 0 "cat") EASY (or_introl eq_refl)) as H.
  cbv zeta in H.
  destruct H as [Hs [(Hq & _) | (_ & Hi & _)]];
    [discriminate | discriminate | discriminate Hq | split; assumption].
Defined.

Lemma Math_round_le (x y : Q) : (x <= y)%Q -> Math_round x <= Math_round y.
Proof.
  intros H. unfold Math_round. apply Qfloor_resp_le. lra.
Qed.

Lemma Math_round_upper (n : Z) (x : Q) :
  (x + 0.5 < inject_Z (n + 1))%Q -> Math_round x <= n.
Proof.
  intros H. unfold Math_round.
  pose proof (Qfloor_le (x + 0.5)) as Hfl.
  assert (inject_Z (Qfloor (x + 0.5)) < inject_Z (n + 1))%Q as Hlt by lra.
  rewrite <- Zlt_Qlt in Hlt. lia.
Qed.

(** The ease factor a successful review leaves, as a function of the old
    one and the rating. *)
Definition reviewedEase (ease : Q) (quality : Z) : Q :=
  Qmax minEaseFactor
    (Qmin maxEaseFactor
       (ease + (0.1 - (5 - inject_Z (quality + 2))
                      * (0.08 + (5 - inject_Z (quality + 2)) * 0.02)))).

Lemma clamp_mono (x y : Q) :
  (x <= y)%Q ->
  (Qmax minEaseFactor (Qmin maxEaseFactor x)
   <= Qmax minEaseFactor (Qmin maxEaseFactor y))%Q.
Proof.
  intros H. apply Q.max_le_compat_l, Q.min_le_compat_l, H.
Qed.

(** What a successful review does to a review-phase card. *)
Lemma processReview_success now c quality :
  quality <> AGAIN ->
  let c' := processReview now c quality in
  easeFactor c' = reviewedEase (easeFactor c) quality /\
  interval c' =
    (if quality =? HARD then Math_round (inject_Z (interval c) * 1.2)
     else if quality =? GOOD
          then Math_round (inject_Z (interval c) * reviewedEase (easeFactor c) quality)
     else if quality =? EASY
          then Math_round (inject_Z (interval c)
                           * reviewedEase (easeFactor c) quality * 1.3)
     else interval c) /\
  nextReview c' = now + interval c' * day /\
  repetitions c' = repetitions c + 1 /\
  lapses c' = lapses c.
Proof.
  intros Hq c'. subst c'. unfold processReview, reviewedEase.
  destruct (Z.eqb_spec quality AGAIN) as [? | _]; [contradiction |].
  card_simpl.
  destruct (quality =? HARD); [| destruct (quality =? GOOD);
    [| destruct (quality =? EASY)]];
    card_simpl; destruct (21 <=? _); card_simpl; repeat split.
Qed.

Lemma processAnswer_review now c quality :
  status c = review \/ status c = learned ->
  processAnswer now c quality
  = processReview now (set_lastReview (Some now) c) quality.
Proof.
  intros Hst. unfold processAnswer. card_simpl.
  case_decide as Hd; [| reflexivity].
  destruct Hst, Hd; congruence.
Qed.

(** X2: on a card in the review phase a better rating never gives a shorter
    interval: HARD <= GOOD <= EASY. *)
Theorem rating_order (now : Z) (card : Card) :
  status card = review \/ status card = learned ->
  0 <= interval card ->
  interval (processAnswer now card HARD) <= interval (processAnswer now card GOOD)
  /\ interval (processAnswer now card GOOD) <= interval (processAnswer now card EASY).
Proof.
  intros Hst Hi. rewrite !(processAnswer_review now card _ Hst).
  destruct (processReview_success now (set_lastReview (Some now) card) HARD)
    as (_ & -> & _); [discriminate |].
  destruct (processReview_success now (set_lastReview (Some now) card) GOOD)
    as (_ & -> & _); [discriminate |].
  destruct (processReview_success now (set_lastReview (Some now) card) EASY)
    as (_ & -> & _); [discriminate |].
  cbn [Z.eqb HARD GOOD EASY Pos.eqb]. card_simpl.
  assert (Hq : (0 <= inject_Z (interval card))%Q)
    by (change 0%Q with (inject_Z 0); rewrite <- Zle_Qle; exact Hi).
  pose proof (clamp_bounds
    (easeFactor card + (0.1 - (5 - inject_Z (2 + 2))
                             * (0.08 + (5 - inject_Z (2 + 2)) * 0.02)))) as [Hg _].
  fold (reviewedEase (easeFactor card) 2) in Hg.
  assert (Hge : (reviewedEase (easeFactor card) 2
                 <= reviewedEase (easeFactor card) 3)%Q).
  { unfold reviewedEase. apply clamp_mono.
    change (inject_Z (2 + 2)) with (4 # 1). change (inject_Z (3 + 2)) with (5 # 1).
    lra. }
  unfold minEaseFactor in Hg.
  change GOOD with 2. change EASY with 3.
  split; apply Math_round_le; nra.
Qed.

Lemma rating_order_witness :
  let card := answers (createCard 0 "cat") [(1, EASY)] in
  interval (processAnswer 2 card HARD) <= interval (processAnswer 2 card GOOD)
  /\ interval (processAnswer 2 card GOOD) <= interval (processAnswer 2 card EASY).
Proof.
  apply rating_order; [left; reflexivity | vm_compute; discriminate].
Defined.

Lemma review_interval_grows now card quality :
  0 <= interval card -> quality <> AGAIN ->
  interval card
  <= interval (processReview now (set_lastReview (Some now) card) quality).
Proof.
  intros Hi Hq.
  destruct (processReview_success now (set_lastReview (Some now) card) quality Hq)
    as (_ & Hint & _).
  rewrite Hint. card_simpl.
  assert (Hqi : (0 <= inject_Z (interval card))%Q)
    by (change 0%Q with (inject_Z 0); rewrite <- Zle_Qle; exact Hi).
  pose proof (clamp_bounds
    (easeFactor card + (0.1 - (5 - inject_Z (quality + 2))
                             * (0.08 + (5 - inject_Z (quality + 2)) * 0.02))))
    as [Hg _].
  fold (reviewedEase (easeFactor card) quality) in Hg.
  unfold minEaseFactor in Hg.
  destruct (quality =? HARD); [| destruct (quality =? GOOD);
    [| destruct (quality =? EASY)]];
    try lia; apply Math_round_ge; nra.
Qed.

(** X3: a successful review (any rating but AGAIN) of a review-phase card
    never shortens the interval, schedules the next review that many days
    ahead, and counts one more repetition. *)
Theorem successful_review_extends (now : Z) (card : Card) (quality : Z) :
  status card = review \/ status card = learned ->
  0 <= interval card -> quality <> AGAIN ->
  let card' := processAnswer now card quality in
  interval card <= interval card' /\
  nextReview card' = now + interval card' * day /\
  repetitions card' = repetitions card + 1 /\
  lapses card' = lapses card.
Proof.
  intros Hst Hi Hq card'. subst card'.
  rewrite (processAnswer_review now card _ Hst).
  destruct (processReview_success now (set_lastReview (Some now) card) quality Hq)
    as (_ & _ & Hnext & Hrep & Hlap).
  split; [apply review_interval_grows; assumption |].
  split; [exact Hnext | split; [exact Hrep | exact Hlap]].
Qed.

Lemma successful_review_extends_witness :
  let card := answers (createCard 0 "cat") [(1, EASY)] in
  interval card <= interval (processAnswer 2 card HARD).
Proof.
  assert (H1 : status (answers (createCard 0 "cat") [(1, EASY)]) = review
               \/ status (answers (createCard 0 "cat") [(1, EASY)]) = learned)
    by (left; reflexivity).
  assert (H2 : 0 <= interval (answers (createCard 0 "cat") [(1, EASY)]))
    by (vm_compute; discriminate).
  assert (H3 : HARD <> AGAIN) by discriminate.
  exact (proj1 (successful_review_extends 2 _ HARD H1 H2 H3)).
Defined.

(** X4: every rated answer on a card built by [createCard] and [processAnswer]
    stamps the review time and schedules the next review at least one
    minute ahead. *)
Theorem scheduled_ahead (t now : Z) (w : string) (history : list (Z * Z))
    (quality : Z) :
  validQuality quality ->
  let card := answers (createCard t w) history in
  let card' := processAnswer now card quality in
  now + minute <= nextReview card' /\ lastReview card' = Some now.
Proof.
  intros Hq card card'.
  pose proof (answers_inv (createCard t w) history (createCard_inv t w)) as Hinv.
  fold card in Hinv. destruct Hinv as [_ _ _ Hi _ Hr Hd].
  subst card'. unfold processAnswer. card_simpl.
  case_decide as Hst.
  - unfold processLearning, minute, day, graduatingInterval, easyInterval.
    destruct Hq as [-> | [-> | [-> | ->]]]; cbn [Z.eqb AGAIN HARD GOOD EASY Pos.eqb];
      card_simpl.
    + repeat case_decide; card_simpl; split; try reflexivity; cbn; lia.
    + destruct (learningStep card) as [|[|n]]; cbn;
        repeat case_decide; card_simpl; split; try reflexivity; lia.
    + destruct (learningStep card) as [|n]; cbn;
        repeat case_decide; card_simpl; split; try reflexivity; lia.
    + repeat case_decide; card_simpl; split; try reflexivity; lia.
  - assert (Hrev : status card = review \/ status card = learned)
      by (destruct (status card); tauto).
    assert (Hpos : 1 <= interval card)
      by (destruct Hrev as [H | H]; [apply Hr in H | apply Hd in H]; lia).
    destruct (Z.eq_dec quality AGAIN) as [-> | Hne].
    + cbn. unfold minute. split; [lia | reflexivity].
    + pose proof (review_interval_grows now card quality Hi Hne) as Hgrow.
      destruct (processReview_success now (set_lastReview (Some now) card)
                                      quality Hne) as (_ & _ & Hnext & _).
      rewrite Hnext. split.
      * unfold minute, day. nia.
      * unfold processReview.
        destruct (quality =? AGAIN); [reflexivity |].
        card_simpl.
        repeat match goal with
        | |- context [if ?b then _ else _] => destruct b; card_simpl
        end; reflexivity.
Qed.

Lemma scheduled_ahead_witness :
  let card' := processAnswer 5000 (answers (createCard 0 "cat") [(1000, GOOD)]) HARD in
  5000 + minute <= nextReview card' /\ lastReview card' = Some 5000.
Proof.
  apply (scheduled_ahead 0 5000 "cat" [(1000, GOOD)] HARD).
  right; left; reflexivity.
Defined.

Lemma first_answer_interval now t w quality :
  0 <= interval (processAnswer now (createCard t w) quality) <= 4.
Proof.
  unfold processAnswer. card_simpl. rewrite decide_True by (left; reflexivity).
  unfold processLearning, graduatingInterval, easyInterval.
  destruct (quality =? AGAIN); [| destruct (quality =? HARD);
    [| destruct (quality =? GOOD); [| destruct (quality =? EASY)]]];
    card_simpl;
    repeat match goal with
    | |- context [(?a <=? ?b)%nat] => destruct (a <=? b)%nat
    end; card_simpl; repeat case_decide; card_simpl; cbn; lia.
Qed.

Lemma second_answer_interval now c quality :
  card_inv c -> interval c <= 4 -> interval (processAnswer now c quality) <= 16.
Proof.
  intros Hinv Hle. pose proof Hinv as [_ _ _ Hi _ _ _].
  unfold processAnswer. card_simpl. case_decide as Hst.
  - unfold processLearning, graduatingInterval, easyInterval.
    destruct (quality =? AGAIN); [| destruct (quality =? HARD);
      [| destruct (quality =? GOOD); [| destruct (quality =? EASY)]]];
      card_simpl;
      repeat match goal with
      | |- context [(?a <=? ?b)%nat] => destruct (a <=? b)%nat
      end; card_simpl; repeat case_decide; card_simpl; lia.
  - destruct (Z.eq_dec quality AGAIN) as [-> | Hne]; [cbn; lia |].
    destruct (processReview_success now (set_lastReview (Some now) c) quality Hne)
      as (_ & -> & _).
    card_simpl.
    assert (Hqi : (0 <= inject_Z (interval c))%Q)
      by (change 0%Q with (inject_Z 0); rewrite <- Zle_Qle; exact Hi).
    assert (Hq4 : (inject_Z (interval c) <= 4)%Q)
      by (change 4%Q with (inject_Z 4); rewrite <- Zle_Qle; exact Hle).
    pose proof (clamp_bounds
      (easeFactor c + (0.1 - (5 - inject_Z (quality + 2))
                             * (0.08 + (5 - inject_Z (quality + 2)) * 0.02))))
      as [Hg1 Hg2].
    fold (reviewedEase (easeFactor c) quality) in Hg1, Hg2.
    unfold minEaseFactor, maxEaseFactor in Hg1, Hg2.
    destruct (quality =? HARD); [| destruct (quality =? GOOD);
      [| destruct (quality =? EASY)]];
      try lia; apply Math_round_upper;
      change (inject_Z (16 + 1)) with (17 # 1); nra.
Qed.

(** X5: no card is 'learned' before its third answer (EASY, EASY, EASY gets
    there with the third). *)
Theorem learned_needs_three_answers (t : Z) (w : string) (history : list (Z * Z)) :
  (length history <= 2)%nat ->
  status (answers (createCard t w) history) <> learned.
Proof.
  intros Hlen.
  pose proof (answers_inv (createCard t w) history (createCard_inv t w))
    as [_ _ _ _ _ _ Hd].
  intros Hlearned. apply Hd in Hlearned.
  destruct history as [|[t1 q1] [|[t2 q2] [|a rest]]]; cbn in Hlen; try lia;
    cbn [answers fold_left fst snd] in Hlearned.
  - cbn in Hlearned. lia.
  - pose proof (first_answer_interval t1 t w q1). lia.
  - pose proof (first_answer_interval t1 t w q1) as [_ H1].
    pose proof (second_answer_interval t2 _ q2
                  (processAnswer_inv t1 _ q1 (createCard_inv t w)) H1).
    lia.
Qed.

Lemma learned_needs_three_answers_witness :
  status (answers (createCard 0 "cat") [(1000, EASY); (2000, EASY)]) <> learned
  /\ status (answers (createCard 0 "cat") [(1000, EASY); (2000, EASY); (3000, EASY)])
     = learned.
Proof.
  split; [| reflexivity].
  apply learned_needs_three_answers. cbn. lia.
Defined.

End SM2_more.

(** ** Due lists and the forecast *)

Section Deck_facts.

(** Ascending order of a key. *)
Definition ascending {A} (key : A -> Z) (l : list A) : Prop :=
  StronglySorted (fun a b => key a <= key b) l.

Lemma insert_by_Permutation {A} (key : A -> Z) (x : A) (l : list A) :
  Vocabulary.insert_by key x l ≡ₚ x :: l.
Proof.
  induction l as [|y rest IH]; cbn; [reflexivity |].
  destruct (key x <=? key y); [reflexivity |].
  rewrite IH. apply Permutation_swap.
Qed.

Lemma sort_by_Permutation {A} (key : A -> Z) (l : list A) :
  Vocabulary.sort_by key l ≡ₚ l.
Proof.
  unfold Vocabulary.sort_by.
  induction l as [|x rest IH]; cbn; [reflexivity |].
  rewrite insert_by_Permutation, IH. reflexivity.
Qed.

Lemma insert_by_ascending {A} (key : A -> Z) (x : A) (l : list A) :
  ascending key l -> ascending key (Vocabulary.insert_by key x l).
Proof.
  unfold ascending. induction 1 as [|y rest Hs IH Hy]; cbn.
  - repeat constructor.
  - destruct (Z.leb_spec (key x) (key y)) as [Hle | Hgt].
    + constructor; [constructor; assumption |].
      constructor; [exact Hle |].
      eapply Forall_impl; [exact Hy |]. cbn. intros; lia.
    + constructor; [exact IH |].
      rewrite (insert_by_Permutation key x rest).
      constructor; [lia | exact Hy].
Qed.

Lemma sort_by_ascending {A} (key : A -> Z) (l : list A) :
  ascending key (Vocabulary.sort_by key l).
Proof.
  unfold Vocabulary.sort_by.
  induction l as [|x rest IH]; cbn; [constructor |].
  apply insert_by_ascending, IH.
Qed.

Lemma ascending_app {A} (key : A -> Z) (l1 l2 : list A) :
  ascending key (l1 ++ l2) ->
  ascending key l1 /\
  forall a b, a ∈ l1 -> b ∈ l2 -> key a <= key b.
Proof.
  unfold ascending. induction l1 as [|x l1 IH]; cbn; intros Hs.
  - split; [constructor |]. intros a b Ha. inversion Ha.
  - apply StronglySorted_inv in Hs as [Hs Hx].
    destruct (IH Hs) as [IH1 IH2]. split.
    + constructor; [exact IH1 |].
      apply Forall_app in Hx as [Hx _]. exact Hx.
    + intros a b Ha Hb. apply elem_of_cons in Ha as [-> | Ha].
      * rewrite Forall_forall in Hx. apply Hx, elem_of_app. right. exact Hb.
      * apply IH2; assumption.
Qed.

(** X6: with a non-negative limit, [SM2.getDueCards] returns due cards of
    the deck only, in ascending order of their next review, as many as the
    limit allows, and every due card it leaves out is due no earlier than
    every card it returns. *)
Theorem due_cards_earliest_first (now : Z) (cards : list SM2.Card) (limit : Z) :
  0 <= limit ->
  let due := filter (fun card => SM2.nextReview card <= now) cards in
  let result := SM2Deck.getDueCards now cards limit in
  (forall card, card ∈ result -> card ∈ cards /\ SM2.nextReview card <= now) /\
  ascending SM2.nextReview result /\
  length result = Nat.min (Z.to_nat limit) (length due) /\
  exists rest,
    result ++ rest ≡ₚ due /\
    forall card other, card ∈ result -> other ∈ rest ->
      SM2.nextReview card <= SM2.nextReview other.
Proof.
  intros Hlimit due result.
  assert (Hres : result = take (Z.to_nat limit) (Vocabulary.sort_by SM2.nextReview due)).
  { subst result. unfold SM2Deck.getDueCards, slice0.
    destruct (Z.ltb_spec limit 0); [lia | reflexivity]. }
  set (sorted := Vocabulary.sort_by SM2.nextReview due) in *.
  assert (Hperm : sorted ≡ₚ due) by apply sort_by_Permutation.
  assert (Hsplit : result ++ drop (Z.to_nat limit) sorted = sorted)
    by (rewrite Hres; apply take_drop).
  pose proof (sort_by_ascending SM2.nextReview due) as Hasc. fold sorted in Hasc.
  rewrite <- Hsplit in Hasc. apply ascending_app in Hasc as [Hasc1 Hasc2].
  split; [| split; [exact Hasc1 | split]].
  - intros card Hin.
    assert (card ∈ due) as Hdue.
    { rewrite <- Hperm, <- Hsplit. apply elem_of_app. left. exact Hin. }
    apply list_elem_of_filter in Hdue as [? ?]. split; assumption.
  - rewrite Hres, length_take, (Permutation_length Hperm). reflexivity.
  - exists (drop (Z.to_nat limit) sorted). split; [| exact Hasc2].
    rewrite Hsplit. exact Hperm.
Qed.

Lemma due_cards_earliest_first_witness :
  let deck := [SM2.createCard 30 "b"; SM2.createCard 10 "a"; SM2.createCard 90 "c"] in
  SM2Deck.getDueCards 50 deck 1 = [SM2.createCard 10 "a"] /\
  ascending SM2.nextReview (SM2Deck.getDueCards 50 deck 1).
Proof.
  split; [reflexivity |].
  apply (due_cards_earliest_first 50 _ 1). lia.
Defined.

(** X7: [Vocabulary.getDueCards] returns exactly the cards due in the
    schedule of the mode (no card lost or repeated), in ascending order of
    their next review; every mode but 'receptive' reads the productive
    schedule. *)
Theorem vocabulary_due_cards (now : Z) (mode : string) (st : Vocabulary.State) :
  let schedule :=
    if decide (mode = "receptive") then Vocabulary.receptive
    else Vocabulary.productive in
  let key := fun card => SM2.nextReview (schedule card) in
  Vocabulary.getDueCards now mode st
    ≡ₚ filter (fun card => key card <= now) (Vocabulary.cards st) /\
  ascending key (Vocabulary.getDueCards now mode st).
Proof.
  intros schedule key. unfold Vocabulary.getDueCards.
  change (Vocabulary.modeKey mode) with schedule.
  split; [apply sort_by_Permutation | apply (sort_by_ascending key)].
Qed.

(** The number of cards whose next review lies in [[from, to)]. *)
Definition scheduledBetween (from to : Z) (cards : list SM2.Card) : nat :=
  length (filter (fun card => from <= SM2.nextReview card
                              /\ SM2.nextReview card < to) cards).

Lemma scheduledBetween_split (a b c : Z) (cards : list SM2.Card) :
  a <= b -> b <= c ->
  (scheduledBetween a b cards + scheduledBetween b c cards)%nat
  = scheduledBetween a c cards.
Proof.
  intros Hab Hbc. unfold scheduledBetween.
  induction cards as [|card rest IH]; [reflexivity |].
  rewrite !filter_cons.
  repeat case_decide; cbn [length]; lia.
Qed.

Lemma getForecast_sum (now : Z) (cards : list SM2.Card) (days : nat) :
  sum_list (SM2Deck.getForecast now cards days)
  = scheduledBetween now (now + Z.of_nat days * SM2.day) cards.
Proof.
  unfold SM2Deck.getForecast.
  induction days as [|days IH].
  - cbn. unfold scheduledBetween.
    induction cards as [|card rest IHc]; [reflexivity |].
    rewrite filter_cons. case_decide; [lia | exact IHc].
  - rewrite seq_S, map_app, sum_list_with_app, IH. cbn [map sum_list_with plus].
    fold (scheduledBetween (now + Z.of_nat days * SM2.day)
                           (now + Z.of_nat days * SM2.day + SM2.day) cards).
    unfold id. rewrite Nat.add_0_r, scheduledBetween_split;
      unfold SM2.day; [f_equal; lia | lia | lia].
Qed.

(** X8: the forecast has one entry per day; each entry counts the cards due
    on that day, and together they count exactly the cards whose next
    review lies between now and the end of the horizon: an overdue card is
    in no entry, and no card is counted twice. *)
Theorem forecast_counts_each_card_once (now : Z) (cards : list SM2.Card)
    (days : nat) :
  let forecast := SM2Deck.getForecast now cards days in
  length forecast = days /\
  (forall i, (i < days)%nat ->
     forecast !! i
     = Some (scheduledBetween (now + Z.of_nat i * SM2.day)
                              (now + (Z.of_nat i + 1) * SM2.day) cards)) /\
  sum_list forecast
  = scheduledBetween now (now + Z.of_nat days * SM2.day) cards.
Proof.
  intros forecast. split; [| split].
  - unfold forecast, SM2Deck.getForecast. rewrite length_map, length_seq.
    reflexivity.
  - intros i Hi. unfold forecast, SM2Deck.getForecast.
    rewrite list_lookup_fmap, lookup_seq_lt by exact Hi. cbn.
    unfold scheduledBetween. do 2 f_equal.
    replace (now + (Z.of_nat i + 1) * SM2.day)
      with (now + Z.of_nat i * SM2.day + SM2.day) by lia.
    reflexivity.
  - apply getForecast_sum.
Qed.

End Deck_facts.

(** ** The session queue and the vocabulary views *)

Section Vocabulary_more.
Import Vocabulary.

(** X9: with a non-negative limit, the queue of [startSession] is a
    rearrangement of the earliest due cards (at most [limit]) followed by
    as many new cards as fill the remaining places; so it never holds more
    than [limit] cards, and every card in it is a card of the vocabulary
    that is due or new.  The vocabulary itself is unchanged and the session
    starts at position 0 with no results. *)
Theorem session_queue (now : Z) (randoms : list Q) (mode : string) (limit : Z)
    (st : State) :
  0 <= limit ->
  let st' := startSession now randoms mode limit st in
  let queue := Session.cards (currentSession st') in
  let due := getDueCards now mode st in
  let fresh := filter (fun card => SM2.status (receptive card) = SM2.new) (cards st) in
  let places := Z.to_nat limit in
  queue ≡ₚ take places due ++ take (places - length due) fresh /\
  (length queue <= places)%nat /\
  (forall card, card ∈ queue ->
     card ∈ cards st /\
     (SM2.nextReview (modeKey mode card) <= now
      \/ SM2.status (receptive card) = SM2.new)) /\
  cards st' = cards st /\
  Session.currentIndex (currentSession st') = 0%nat /\
  Session.results (currentSession st') = [].
Proof.
  intros Hlimit st' queue due fresh places.
  assert (Hq : queue ≡ₚ take places due ++ take (places - length due) fresh).
  { subst queue st'. unfold startSession. cbn [currentSession Session.cards].
    rewrite shuffleArray_Permutation. fold due.
    unfold getNewCards, slice0. fold fresh.
    destruct (Z.ltb_spec limit 0); [lia |].
    destruct (Z.ltb_spec (limit - Z.of_nat (length due) `min` limit) 0); [lia |].
    replace (Z.to_nat (limit - Z.of_nat (length due) `min` limit))
      with (places - length due)%nat by (subst places; lia).
    fold places. rewrite take_ge; [reflexivity |].
    rewrite length_app, !length_take. lia. }
  split; [exact Hq |]. split; [| split; [| repeat split]].
  - rewrite Hq, length_app, !length_take. lia.
  - intros card Hin. rewrite Hq in Hin.
    apply elem_of_app in Hin as [Hin | Hin]; apply elem_of_take in Hin as (i & Hin & _);
      apply list_elem_of_lookup_2 in Hin.
    + subst due. unfold getDueCards in Hin.
      rewrite (sort_by_Permutation _ _) in Hin.
      apply list_elem_of_filter in Hin as [Hdue Hin]. split; [exact Hin | left; exact Hdue].
    + subst fresh. apply list_elem_of_filter in Hin as [Hnew Hin].
      split; [exact Hin | right; exact Hnew].
Qed.

Lemma session_queue_witness :
  let st := mkState [createCard 1000 cat] (currentSession initial) in
  (length (Session.cards (currentSession (startSession 2000 [] "receptive" 1 st)))
   <= 1)%nat.
Proof.
  pose proof (session_queue 2000 [] "receptive" 1
                (mkState [createCard 1000 cat] (currentSession initial))) as H.
  cbv zeta in H. destruct H as (_ & H & _); [lia |]. exact H.
Defined.

Lemma ratio_bounds (part whole : nat) :
  (part <= whole)%nat -> (0 < whole)%nat ->
  (0 <= inject_Z (Z.of_nat part) / inject_Z (Z.of_nat whole) <= 1)%Q.
Proof.
  intros Hle Hpos.
  assert (Hw : (0 < inject_Z (Z.of_nat whole))%Q)
    by (change 0%Q with (inject_Z 0); rewrite <- Zlt_Qlt; lia).
  assert (Hp : (0 <= inject_Z (Z.of_nat part))%Q)
    by (change 0%Q with (inject_Z 0); rewrite <- Zle_Qle; lia).
  assert (Hpw : (inject_Z (Z.of_nat part) <= inject_Z (Z.of_nat whole))%Q)
    by (rewrite <- Zle_Qle; lia).
  split.
  - apply Qle_shift_div_l; [exact Hw | rewrite Qmult_0_l; exact Hp].
  - apply Qle_shift_div_r; [exact Hw | rewrite Qmult_1_l; exact Hpw].
Qed.

Lemma ratio_one (part whole : nat) :
  (0 < whole)%nat ->
  (inject_Z (Z.of_nat part) / inject_Z (Z.of_nat whole) == 1)%Q <-> part = whole.
Proof.
  intros Hpos.
  assert (Hw : ~ (inject_Z (Z.of_nat whole) == 0)%Q).
  { change 0%Q with (inject_Z 0). rewrite inject_Z_injective. lia. }
  split.
  - intros H.
    assert (inject_Z (Z.of_nat part) == inject_Z (Z.of_nat whole))%Q as Heq.
    { rewrite <- (Qmult_div_r (inject_Z (Z.of_nat part)) _ Hw).
      unfold Qdiv in H |- *. rewrite H. ring. }
    apply (proj1 (inject_Z_injective _ _)) in Heq. lia.
  - intros ->. apply Qmult_inv_r, Hw.
Qed.

Lemma filter_all_length {A} (P : A -> Prop) `{!forall x, Decision (P x)}
    (l : list A) :
  length (filter P l) = length l <-> Forall P l.
Proof.
  induction l as [|x rest IH]; [split; [constructor | reflexivity] |].
  rewrite filter_cons. pose proof (length_filter P rest) as Hle.
  case_decide as Hx; cbn [length].
  - rewrite Forall_cons, <- IH. split; [intros; split; [assumption | lia] | intros [_ ?]; lia].
  - split; [lia | intros HF; apply Forall_cons in HF as [? _]; contradiction].
Qed.

(** X10: in a session summary the number of correct answers (ratings of GOOD
    or better) never exceeds the total, the accuracy lies between 0 and 1,
    it is 0 without a division for an empty session, it is 1 exactly when
    every answer was rated GOOD or better, and [reviewed] lists one word per
    answer. *)
Theorem session_summary_bounds (now : Z) (st : State) :
  let summary := VocabularyViews.getSessionSummary now st in
  let results := Session.results (currentSession st) in
  VocabularyViews.s_total summary = length results /\
  (VocabularyViews.s_correct summary <= VocabularyViews.s_total summary)%nat /\
  (0 <= VocabularyViews.s_accuracy summary <= 1)%Q /\
  (results = [] ->
   VocabularyViews.s_accuracy summary = 0%Q /\
   VocabularyViews.s_averageTime summary = Some 0%Q) /\
  (results <> [] ->
   ((VocabularyViews.s_accuracy summary == 1)%Q
    <-> Forall (fun r => SM2.GOOD <= r_quality r) results)) /\
  length (VocabularyViews.s_reviewed summary) = length results.
Proof.
  intros summary results. subst summary.
  unfold VocabularyViews.getSessionSummary. fold results.
  cbn [VocabularyViews.s_total VocabularyViews.s_correct
       VocabularyViews.s_accuracy VocabularyViews.s_averageTime
       VocabularyViews.s_reviewed].
  pose proof (length_filter (fun r => 2 <= r_quality r) results) as Hle.
  split; [reflexivity |]. split; [exact Hle |].
  split; [| split; [| split]].
  - destruct (Nat.ltb_spec 0 (length results)); [| lra].
    apply ratio_bounds; assumption.
  - intros ->. split; reflexivity.
  - intros Hne.
    assert (0 < length results)%nat
      by (destruct results; [congruence | cbn; lia]).
    destruct (Nat.ltb_spec 0 (length results)); [| lia].
    rewrite ratio_one by assumption.
    apply (filter_all_length (fun r => 2 <= r_quality r)).
  - apply length_map.
Qed.

(** The number of cards whose card of one mode has a status. *)
Definition withStatus (schedule : Card -> SM2.Card) (status : SM2.Status)
    (l : list Card) : nat :=
  length (filter (fun card => SM2.status (schedule card) = status) l).

Definition counts_of (schedule : Card -> SM2.Card) (l : list Card)
    : VocabularyViews.StatusCounts :=
  VocabularyViews.mkStatusCounts
    (withStatus schedule SM2.new l) (withStatus schedule SM2.learning l)
    (withStatus schedule SM2.review l) (withStatus schedule SM2.learned l).

Definition add_counts (a b : VocabularyViews.StatusCounts)
    : VocabularyViews.StatusCounts :=
  VocabularyViews.mkStatusCounts
    (VocabularyViews.n_new a + VocabularyViews.n_new b)
    (VocabularyViews.n_learning a + VocabularyViews.n_learning b)
    (VocabularyViews.n_review a + VocabularyViews.n_review b)
    (VocabularyViews.n_learned a + VocabularyViews.n_learned b).

Lemma tally_fold (l : list Card) (t : VocabularyViews.Tally) :
  let t' := fold_left VocabularyViews.tally_card l t in
  VocabularyViews.t_receptive t'
    = add_counts (VocabularyViews.t_receptive t) (counts_of receptive l) /\
  VocabularyViews.t_productive t'
    = add_counts (VocabularyViews.t_productive t) (counts_of productive l) /\
  VocabularyViews.t_fullyLearned t'
    = (VocabularyViews.t_fullyLearned t
       + length (filter (fun card => VocabularyViews.isWordFullyLearned card = true) l))%nat.
Proof.
  revert t. induction l as [|card rest IH]; intros t.
  - cbn. destruct t as [[] [] ? ? ?]. cbn.
    unfold add_counts. cbn. rewrite !Nat.add_0_r. repeat split.
  - cbn [fold_left]. destruct (IH (VocabularyViews.tally_card t card))
      as (IH1 & IH2 & IH3).
    cbv zeta. rewrite IH1, IH2, IH3. clear IH IH1 IH2 IH3.
    unfold counts_of, withStatus, add_counts. rewrite !filter_cons.
    cbn [VocabularyViews.tally_card VocabularyViews.t_receptive
         VocabularyViews.t_productive VocabularyViews.t_fullyLearned].
    destruct (SM2.status (receptive card)), (SM2.status (productive card)),
             (VocabularyViews.isWordFullyLearned card);
      repeat (case_decide; try congruence); cbn;
      repeat split; f_equal; lia.
Qed.

Lemma withStatus_sum (schedule : Card -> SM2.Card) (l : list Card) :
  (withStatus schedule SM2.new l + withStatus schedule SM2.learning l
   + withStatus schedule SM2.review l + withStatus schedule SM2.learned l)%nat
  = length l.
Proof.
  unfold withStatus. induction l as [|card rest IH]; [reflexivity |].
  rewrite !filter_cons. destruct (SM2.status (schedule card));
    repeat (case_decide; try congruence); cbn [length]; lia.
Qed.

(** X11: in the statistics each status counter of a mode is the number of
    cards whose card of that mode has the status, so the four counters of a
    mode add up to the total; the fully learned words are counted among the
    cards and cannot exceed the total. *)
Theorem stats_partition (st : State) :
  let stats := VocabularyViews.getStats st in
  VocabularyViews.receptive stats = counts_of receptive (cards st) /\
  VocabularyViews.productive stats = counts_of productive (cards st) /\
  (forall counts,
     counts = VocabularyViews.receptive stats
     \/ counts = VocabularyViews.productive stats ->
     (VocabularyViews.n_new counts + VocabularyViews.n_learning counts
      + VocabularyViews.n_review counts + VocabularyViews.n_learned counts)%nat
     = VocabularyViews.total stats) /\
  VocabularyViews.fullyLearned stats
    = length (filter (fun card => VocabularyViews.isWordFullyLearned card = true)
                     (cards st)) /\
  (VocabularyViews.fullyLearned stats <= VocabularyViews.total stats)%nat.
Proof.
  intros stats. subst stats. unfold VocabularyViews.getStats.
  cbn [VocabularyViews.receptive VocabularyViews.productive
       VocabularyViews.fullyLearned VocabularyViews.total].
  destruct (tally_fold (cards st)
              (VocabularyViews.mkTally (VocabularyViews.mkStatusCounts 0 0 0 0)
                 (VocabularyViews.mkStatusCounts 0 0 0 0) 0 0 0))
    as (H1 & H2 & H3).
  cbv zeta in H1, H2, H3. rewrite H1, H2, H3.
  split; [reflexivity |]. split; [reflexivity |]. split; [| split].
  - intros counts [-> | ->]; cbn; apply withStatus_sum.
  - reflexivity.
  - cbn. apply length_filter.
Qed.

Lemma string_length_app (s1 s2 : string) :
  String.length (s1 +:+ s2) = (String.length s1 + String.length s2)%nat.
Proof.
  induction s1 as [|c s1 IH]; simpl; [reflexivity | f_equal; exact IH].
Qed.

Lemma string_get_lt (s : string) (i : nat) :
  (i < String.length s)%nat -> exists c, String.get i s = Some c.
Proof.
  revert i. induction s as [|c s IH]; intros i Hi; cbn in Hi; [lia |].
  destruct i as [|i]; cbn; [eauto | apply IH; lia].
Qed.

Lemma replicate_underscore_length (n : nat) :
  String.length (VocabularyViews.replicate_string n "_") = n.
Proof.
  induction n as [|n IH]; simpl; [reflexivity | f_equal; exact IH].
Qed.

Lemma replicate_underscore_get (n i : nat) :
  (i < n)%nat ->
  String.get i (VocabularyViews.replicate_string n "_") = String.get 0 "_".
Proof.
  revert i. induction n as [|n IH]; intros i Hi; [lia |].
  destruct i as [|i]; simpl; [reflexivity | apply IH; lia].
Qed.

(** X12: [renderDefinitionCard] raises a RangeError for a word of fewer than
    two characters (such as "a" or "I"); for any longer word the hint has
    the length of the word, shows its first and last character and an
    underscore in every place between, and the back is given exactly when
    the answer is shown. *)
Theorem definition_hint (card : Card) (showAnswer : bool) :
  let n := String.length (word card) in
  ((n < 2)%nat -> VocabularyViews.renderDefinitionCard card showAnswer = None) /\
  ((2 <= n)%nat ->
   exists view,
     VocabularyViews.renderDefinitionCard card showAnswer = Some view /\
     String.length (VocabularyViews.front_hint view) = n /\
     String.get 0 (VocabularyViews.front_hint view) = String.get 0 (word card) /\
     String.get (n - 1) (VocabularyViews.front_hint view)
       = String.get (n - 1) (word card) /\
     (forall i, (0 < i < n - 1)%nat ->
        String.get i (VocabularyViews.front_hint view) = String.get 0 "_") /\
     VocabularyViews.back view
       = if showAnswer then Some (word card, transcription card) else None).
Proof.
  intros n. unfold VocabularyViews.renderDefinitionCard,
    VocabularyViews.String_repeat. fold n. split.
  - intros Hn. destruct (Z.ltb_spec (Z.of_nat n - 2) 0); [reflexivity | lia].
  - intros Hn. destruct (Z.ltb_spec (Z.of_nat n - 2) 0); [lia |].
    cbn [mbind option_bind].
    replace (Z.to_nat (Z.of_nat n - 2)) with (n - 2)%nat by lia.
    destruct (string_get_lt (word card) 0) as [first Hfirst]; [fold n; lia |].
    destruct (string_get_lt (word card) (n - 1)) as [last Hlast]; [fold n; lia |].
    rewrite Hfirst. cbn [mbind option_bind]. rewrite Hlast.
    cbn [mbind option_bind].
    eexists. split; [reflexivity |].
    cbn [VocabularyViews.front_hint VocabularyViews.back].
    set (blanks := VocabularyViews.replicate_string (n - 2) "_").
    assert (Hb : String.length blanks = (n - 2)%nat)
      by apply replicate_underscore_length.
    split; [| split; [| split; [| split]]].
    + cbn [String.length]. rewrite string_length_app, Hb. cbn. lia.
    + reflexivity.
    + destruct n as [|[|m]]; try lia.
      replace (S (S m) - 1)%nat with (S m) by lia. cbn [String.get].
      pose proof (String.append_correct2 blanks (String last EmptyString) 0) as H2.
      cbn [String.get] in H2. rewrite Hb in H2.
      replace (S (S m) - 2)%nat with m in H2 by lia.
      cbn [Nat.add] in H2. rewrite <- H2. reflexivity.
    + intros i Hi. destruct i as [|i]; [lia |]. cbn [String.get].
      rewrite <- String.append_correct1 by (rewrite Hb; lia).
      apply replicate_underscore_get. lia.
    + reflexivity.
Qed.

Lemma definition_hint_witness :
  VocabularyViews.renderDefinitionCard (createCard 0 cat) true
  = Some (VocabularyViews.mkDefinitionView EmptyString "c_t" "What word is this?"
            (Some ("cat", EmptyString))) /\
  VocabularyViews.renderDefinitionCard
    (createCard 0 (mkWordData "I" None None None None None None None None)) true
  = None.
Proof.
  split; [reflexivity |].
  apply (proj1 (definition_hint
                  (createCard 0 (mkWordData "I" None None None None None None None None))
                  true)).
  cbn. lia.
Defined.

End Vocabulary_more.

(** ** The stored vocabulary *)

Section Database_facts.
Import Vocabulary.

Lemma findIndex_absent (w : string) (vocab : list Card) :
  Database.findIndex w vocab < 0 <-> Forall (fun v => word v <> w) vocab.
Proof.
  induction vocab as [|v rest IH]; cbn.
  - split; [constructor | lia].
  - case_decide as Hv.
    + split; [lia | intros HF; apply Forall_cons in HF as [? _]; contradiction].
    + destruct (Z.ltb_spec (Database.findIndex w rest) 0) as [Hlt | Hge].
      * split; [intros _; constructor; [exact Hv | apply IH; exact Hlt] | lia].
      * split; [lia |]. intros HF. apply Forall_cons in HF as [_ HF].
        apply IH in HF. lia.
Qed.

Lemma findIndex_found (w : string) (vocab : list Card) :
  0 <= Database.findIndex w vocab ->
  exists v,
    vocab !! Z.to_nat (Database.findIndex w vocab) = Some v /\ word v = w /\
    Forall (fun u => word u <> w) (take (Z.to_nat (Database.findIndex w vocab)) vocab).
Proof.
  induction vocab as [|v rest IH]; cbn; [lia |].
  case_decide as Hv.
  - intros _. exists v. cbn. repeat split; [exact Hv | constructor].
  - destruct (Z.ltb_spec (Database.findIndex w rest) 0) as [Hlt | Hge]; [lia |].
    intros _. destruct (IH Hge) as (u & Hu & Hw & Hbefore). exists u.
    replace (Z.to_nat (Database.findIndex w rest + 1))
      with (S (Z.to_nat (Database.findIndex w rest))) by lia.
    cbn. repeat split; [exact Hu | exact Hw | constructor; assumption].
Qed.

Lemma findIndex_range (w : string) (vocab : list Card) :
  -1 <= Database.findIndex w vocab < Z.of_nat (length vocab).
Proof.
  induction vocab as [|v rest IH]; cbn [Database.findIndex length]; [lia |].
  case_decide; [lia |].
  destruct (Z.ltb_spec (Database.findIndex w rest) 0); lia.
Qed.

Lemma findIndex_at (w : string) (vocab : list Card) (i : nat) (v : Card) :
  vocab !! i = Some v -> word v = w ->
  Forall (fun u => word u <> w) (take i vocab) ->
  Database.findIndex w vocab = Z.of_nat i.
Proof.
  revert i. induction vocab as [|u rest IH]; intros i Hi Hw Hbefore;
    [discriminate |].
  cbn [Database.findIndex]. destruct i as [|i].
  - cbn in Hi. injection Hi as ->. rewrite decide_True by exact Hw. reflexivity.
  - cbn in Hi, Hbefore. apply Forall_cons in Hbefore as [Hu Hbefore].
    rewrite decide_False by exact Hu.
    rewrite (IH i Hi Hw Hbefore).
    destruct (Z.ltb_spec (Z.of_nat i) 0); lia.
Qed.

Lemma filter_other_words (w : string) (v : Card) (l1 l2 : list Card) :
  word v = w ->
  filter (fun u => word u <> w) (l1 ++ v :: l2)
  = filter (fun u => word u <> w) (l1 ++ l2).
Proof.
  intros Hw. rewrite !filter_app, filter_cons.
  rewrite decide_False by (intros H; apply H, Hw). reflexivity.
Qed.

(** X13: saving a card replaces the first stored card with the same word, or
    appends the card when the word is not stored.  Afterwards looking the
    word up finds the saved card; the cards with other words are the same,
    in the same order; the list grows by one exactly when the word was
    absent; and saving the same card again changes nothing. *)
Theorem save_then_find (card : Card) (vocab : list Card) :
  let vocab' := Database.saveVocabularyCard card vocab in
  let index := Database.findIndex (word card) vocab' in
  0 <= index /\
  vocab' !! Z.to_nat index = Some card /\
  filter (fun v => word v <> word card) vocab'
    = filter (fun v => word v <> word card) vocab /\
  length vocab'
    = (if 0 <=? Database.findIndex (word card) vocab then length vocab
       else S (length vocab)) /\
  Database.saveVocabularyCard card vocab' = vocab'.
Proof.
  intros vocab' index.
  assert (Hmain : exists i : nat,
            index = Z.of_nat i /\ vocab' !! i = Some card /\
            filter (fun v => word v <> word card) vocab'
              = filter (fun v => word v <> word card) vocab /\
            length vocab'
              = (if 0 <=? Database.findIndex (word card) vocab then length vocab
                 else S (length vocab))).
  { subst index vocab'. unfold Database.saveVocabularyCard.
    destruct (Z.leb_spec 0 (Database.findIndex (word card) vocab)) as [Hge | Hlt].
    - destruct (findIndex_found (word card) vocab Hge) as (v & Hv & Hw & Hbefore).
      set (i := Z.to_nat (Database.findIndex (word card) vocab)) in *.
      assert (Hi : (i < length vocab)%nat) by (eapply lookup_lt_Some; exact Hv).
      assert (Hcard : <[i := card]> vocab !! i = Some card)
        by (apply list_lookup_insert_eq; exact Hi).
      exists i. split; [| split; [exact Hcard | split]].
      + apply (findIndex_at _ _ i card Hcard eq_refl).
        rewrite take_insert_ge by lia. exact Hbefore.
      + rewrite <- (take_drop_middle vocab i v Hv) at 2.
        rewrite (filter_other_words _ v) by exact Hw.
        rewrite <- (take_drop_middle (<[i := card]> vocab) i card Hcard).
        rewrite (filter_other_words _ card) by reflexivity.
        rewrite take_insert_ge, drop_insert_lt by lia. reflexivity.
      + apply length_insert.
    - assert (Habsent : Forall (fun v => word v <> word card) vocab)
        by (apply findIndex_absent; exact Hlt).
      assert (Hcard : (vocab ++ [card]) !! length vocab = Some card).
      { rewrite lookup_app_r by lia. rewrite Nat.sub_diag. reflexivity. }
      exists (length vocab). split; [| split; [exact Hcard | split]].
      + apply (findIndex_at _ _ _ card Hcard eq_refl).
        rewrite take_app_length. exact Habsent.
      + rewrite filter_app, filter_cons, decide_False by tauto.
        apply app_nil_r.
      + rewrite length_app. cbn. lia. }
  destruct Hmain as (i & Hi & H2 & H3 & H4).
  rewrite Hi, Nat2Z.id.
  split; [lia |]. split; [exact H2 |]. split; [exact H3 |]. split; [exact H4 |].
  unfold Database.saveVocabularyCard at 1. fold index. rewrite Hi.
  destruct (Z.leb_spec 0 (Z.of_nat i)); [| lia].
  rewrite Nat2Z.id. apply list_insert_id, H2.
Qed.

End Database_facts.

(** ** More on the grammar topic state machine *)

Section Grammar_more.
Import Grammar.

(** X14: a topic counts as completed exactly when its derived phase is
    'review'. *)
Theorem completed_iff_review (progress : Progress) :
  isTopicCompleted progress = true <-> determineCurrentPhase progress = REVIEW.
Proof.
  unfold isTopicCompleted, determineCurrentPhase.
  destruct (discover (phases progress)), (understand (phases progress)),
           (notice (phases progress)), (practice_completed (phases progress)),
           (produce_completed (phases progress));
    cbn [negb andb]; try (split; discriminate).
  destruct (Z.ltb_spec (input_flood (phases progress)) 5),
           (Z.leb_spec 5 (input_flood (phases progress)));
    try lia; split; try discriminate; reflexivity.
Qed.

(** How many of the ten steps of a topic are done: the five flags and up to
    five texts read. *)
Definition stepsDone (p : Phases) : Z :=
  Z.b2z (discover p) + Z.b2z (understand p) + Z.b2z (notice p)
  + Z.b2z (practice_completed p) + Z.b2z (produce_completed p)
  + Z.min 5 (Z.max 0 (input_flood p)).

Lemma updatePhases_one_step now phase data p :
  stepsDone (updatePhases now phase data p) <= stepsDone p + 1.
Proof.
  unfold updatePhases, stepsDone.
  repeat case_decide;
    unfold practice_completed, produce_completed;
    cbn [discover understand notice practice produce input_flood
         Practice.completed Produce.completed];
    repeat match goal with
    | |- context [Z.b2z ?b] => destruct b; cbn [Z.b2z]
    | |- context [match ?o with Some _ => _ | None => _ end] => destruct o
    end; lia.
Qed.

Lemma review_needs_all_steps progress :
  determineCurrentPhase progress = REVIEW -> stepsDone (phases progress) = 10.
Proof.
  unfold determineCurrentPhase, stepsDone.
  destruct (discover (phases progress)), (understand (phases progress)),
           (notice (phases progress)), (practice_completed (phases progress)),
           (produce_completed (phases progress));
    cbn [negb Z.b2z]; try discriminate.
  destruct (Z.ltb_spec (input_flood (phases progress)) 5); [discriminate |].
  intros _. lia.
Qed.

(** A series of [completePhase] calls: the clock reading, the phase and the
    data of each. *)
Definition completeAll (calls : list (Z * string * Data)) (st : State) : State :=
  fold_left (fun st '(now, phase, data) => snd (completePhase now phase data st))
            calls st.

Lemma completeAll_progress calls st topic p :
  currentTopic st = Some topic -> progress st !! topic = Some p ->
  currentTopic (completeAll calls st) = Some topic /\
  exists p', progress (completeAll calls st) !! topic = Some p' /\
             stepsDone (phases p') <= stepsDone (phases p) + Z.of_nat (length calls) /\
             startedAt p' = startedAt p.
Proof.
  revert st p. induction calls as [|[[now phase] data] rest IH]; intros st p Ht Hp.
  - cbn. split; [exact Ht |]. exists p. repeat split; [exact Hp | lia].
  - cbn [completeAll fold_left].
    assert (Hstep : snd (completePhase now phase data st)
                    = mkState (<[topic := updateProgress now phase data p]> (progress st))
                              (Some topic)
                              (Some (determineCurrentPhase (updateProgress now phase data p)))).
    { unfold completePhase. rewrite Ht, Hp. reflexivity. }
    rewrite Hstep.
    edestruct (IH (mkState (<[topic := updateProgress now phase data p]> (progress st))
                           (Some topic)
                           (Some (determineCurrentPhase (updateProgress now phase data p))))
                  (updateProgress now phase data p))
      as (Ht' & p' & Hp' & Hsteps & Hstart);
      [reflexivity | cbn; apply lookup_insert_eq |].
    split; [exact Ht' |]. exists p'. split; [exact Hp' |]. split.
    + rewrite phases_updateProgress in Hsteps.
      pose proof (updatePhases_one_step now phase data (phases p)).
      cbn [length]. lia.
    + rewrite Hstart. unfold updateProgress.
      destruct (isTopicCompleted _); reflexivity.
Qed.

(** X15: there is no skipping ahead: on a topic started fresh, the derived
    phase can be 'review' only after at least ten [completePhase] calls
    (discover, understand, notice, a passed practice, produce and five
    texts). *)
Theorem review_needs_ten_calls (now : Z) (topic : string)
    (calls : list (Z * string * Data)) (st : State) (p' : Progress) :
  progress st !! topic = None ->
  let st' := completeAll calls (snd (GrammarTopics.startTopic now topic true st)) in
  progress st' !! topic = Some p' ->
  determineCurrentPhase p' = REVIEW ->
  (10 <= length calls)%nat.
Proof.
  intros Hnone st' Hp' Hreview.
  destruct (completeAll_progress calls
              (snd (GrammarTopics.startTopic now topic true st)) topic
              (mkProgress (phases defaultProgress) None false (Some now) None))
    as (_ & q & Hq & Hsteps & _).
  - reflexivity.
  - unfold GrammarTopics.startTopic. cbn [negb snd progress]. rewrite Hnone.
    cbn [progress]. rewrite lookup_insert_eq.
    unfold GrammarTopics.getTopicProgress. cbn [progress]. rewrite Hnone.
    reflexivity.
  - fold st' in Hq. rewrite Hp' in Hq. injection Hq as <-.
    apply review_needs_all_steps in Hreview.
    change (stepsDone (phases (mkProgress (phases defaultProgress) None false
                                          (Some now) None))) with 0 in Hsteps.
    lia.
Qed.

(** The shortest way through a topic. *)
Definition tenCalls : list (Z * string * Data) :=
  let plain := mkData None None None None in
  [(1, DISCOVER, plain); (2, UNDERSTAND, plain); (3, NOTICE, plain);
   (4, PRACTICE, mkData (Some 0.8%Q) None None None);
   (5, PRODUCE, mkData None (Some "She is a teacher.") None None);
   (6, INPUT_FLOOD, plain); (7, INPUT_FLOOD, plain); (8, INPUT_FLOOD, plain);
   (9, INPUT_FLOOD, plain); (10, INPUT_FLOOD, plain)].

Definition progressAfterTenCalls : Progress :=
  default defaultProgress
    (progress (completeAll tenCalls
                 (snd (GrammarTopics.startTopic 0 "a1_to_be" true
                         (mkState ∅ None None)))) !! "a1_to_be").

Lemma review_needs_ten_calls_witness :
  determineCurrentPhase progressAfterTenCalls = REVIEW /\
  (10 <= length tenCalls)%nat.
Proof.
  assert (H1 : progress (completeAll tenCalls
                 (snd (GrammarTopics.startTopic 0 "a1_to_be" true
                         (mkState ∅ None None)))) !! "a1_to_be"
               = Some progressAfterTenCalls)
    by (vm_compute; reflexivity).
  assert (H2 : determineCurrentPhase progressAfterTenCalls = REVIEW)
    by (vm_compute; reflexivity).
  assert (H0 : progress (mkState ∅ None None) !! "a1_to_be" = None)
    by apply lookup_empty.
  split; [exact H2 |].
  exact (review_needs_ten_calls 0 "a1_to_be" tenCalls (mkState ∅ None None)
           progressAfterTenCalls H0 H1 H2).
Defined.

(** X16: a topic that [getTopicStatus] reports as 'completed' stays
    'completed' through every later [completePhase] call on it (also one
    that makes the derived phase fall back), and the call leaves the
    progress of every other topic alone. *)
Theorem completed_stays_completed (now : Z) (phase : string) (data : Data)
    (st : State) (topic : string) :
  now <> 0 ->
  currentTopic st = Some topic ->
  GrammarTopics.getTopicStatus topic st = "completed" ->
  let st' := snd (completePhase now phase data st) in
  GrammarTopics.getTopicStatus topic st' = "completed" /\
  forall other, other <> topic -> progress st' !! other = progress st !! other.
Proof.
  intros Hnow Ht Hstatus st'. subst st'.
  unfold GrammarTopics.getTopicStatus in Hstatus |- *.
  unfold completePhase. rewrite Ht.
  destruct (progress st !! topic) as [p|] eqn:Hp; [| discriminate].
  cbn [snd progress]. rewrite lookup_insert_eq. split.
  - destruct (GrammarTopics.truthyTime (startedAt p)) eqn:Hs;
      [| discriminate].
    destruct (GrammarTopics.truthyTime (completedAt p)) eqn:Hc;
      [| discriminate].
    unfold updateProgress. destruct (isTopicCompleted _);
      cbn [startedAt completedAt]; rewrite Hs; cbn [negb].
    + cbn [GrammarTopics.truthyTime].
      destruct (Z.eqb_spec now 0); [contradiction | reflexivity].
    + rewrite Hc. reflexivity.
  - intros other Hne. apply lookup_insert_ne. congruence.
Qed.

Lemma completed_stays_completed_witness :
  GrammarTopics.getTopicStatus "a1_to_be"
    (snd (completePhase 30 PRACTICE (mkData (Some 0.3%Q) None None None) reviewing))
  = "completed".
Proof.
  apply (completed_stays_completed 30 PRACTICE _ reviewing "a1_to_be");
    [discriminate | reflexivity | reflexivity].
Defined.

(** The progress record a fresh topic starts with. *)
Definition freshProgress (now : Z) : Progress :=
  mkProgress (phases defaultProgress) None false (Some now) None.

(** X17: a successful [startTopic] makes the topic current and resumes it:
    recorded progress is returned untouched with its derived phase, a topic
    without progress starts at 'discover' with the start time stamped; the
    progress of other topics is unchanged; and every [completePhase] call
    that follows succeeds. *)
Theorem startTopic_resumes (now : Z) (topic : string) (st : State) :
  let out := fst (GrammarTopics.startTopic now topic true st) in
  let st' := snd (GrammarTopics.startTopic now topic true st) in
  currentTopic st' = Some topic /\
  (forall p, progress st !! topic = Some p ->
     out = GrammarTopics.Resumed p (determineCurrentPhase p) /\
     progress st' = progress st) /\
  (progress st !! topic = None ->
     out = GrammarTopics.Resumed (freshProgress now) DISCOVER /\
     progress st' !! topic = Some (freshProgress now) /\
     (now <> 0 -> GrammarTopics.getTopicStatus topic st' = "in_progress")) /\
  (forall other, other <> topic -> progress st' !! other = progress st !! other) /\
  (forall now' phase data,
     exists p' next completed st'',
       completePhase now' phase data st' = (Success p' next completed, st'')).
Proof.
  intros out st'. subst out st'. unfold GrammarTopics.startTopic.
  cbn [negb fst snd progress currentTopic].
  split; [reflexivity |]. split; [| split; [| split]].
  - intros p Hp. rewrite Hp. split; [reflexivity |]. apply insert_id, Hp.
  - intros Hnone. rewrite Hnone.
    unfold GrammarTopics.getTopicProgress. cbn [progress]. rewrite Hnone.
    split; [reflexivity |]. split; [apply lookup_insert_eq |].
    intros Hnow. unfold GrammarTopics.getTopicStatus. cbn [progress].
    rewrite lookup_insert_eq. cbn.
    destruct (Z.eqb_spec now 0); [contradiction | reflexivity].
  - intros other Hne. apply lookup_insert_ne. congruence.
  - intros now' phase data. unfold completePhase. cbn [currentTopic progress].
    rewrite lookup_insert_eq. eexists _, _, _, _. reflexivity.
Qed.


(** X19: [goToPhase] only moves the phase pointer: it refuses a phase outside
    the fixed order, never touches the progress or the current topic, and
    the next [completePhase] call returns what it would have returned
    without it, setting the pointer back to the derived phase. *)
Theorem goToPhase_only_moves_pointer (phase : string) (st : State) :
  let st' := snd (GrammarTopics.goToPhase phase st) in
  (phase ∉ PHASE_ORDER -> GrammarTopics.goToPhase phase st = (None, st)) /\
  (phase ∈ PHASE_ORDER ->
   currentPhase st' = Some phase /\
   fst (GrammarTopics.goToPhase phase st)
     = Some (phase, progress st !! default "null" (currentTopic st))) /\
  progress st' = progress st /\ currentTopic st' = currentTopic st /\
  (forall now other data,
     fst (completePhase now other data st') = fst (completePhase now other data st) /\
     forall p next completed,
       fst (completePhase now other data st) = Success p next completed ->
       snd (completePhase now other data st') = snd (completePhase now other data st) /\
       currentPhase (snd (completePhase now other data st')) = Some next).
Proof.
  intros st'.
  assert (Hsame : progress st' = progress st /\ currentTopic st' = currentTopic st).
  { subst st'. unfold GrammarTopics.goToPhase.
    destruct (bool_decide _); split; reflexivity. }
  destruct Hsame as [Hp Ht].
  split; [| split; [| split; [exact Hp | split; [exact Ht |]]]].
  - intros Hout. unfold GrammarTopics.goToPhase.
    rewrite bool_decide_eq_false_2 by exact Hout. reflexivity.
  - intros Hin. subst st'. unfold GrammarTopics.goToPhase.
    rewrite bool_decide_eq_true_2 by exact Hin. split; reflexivity.
  - intros now other data. unfold completePhase. rewrite Hp, Ht.
    destruct (currentTopic st) as [topic|]; [| split; [reflexivity | discriminate]].
    destruct (progress st !! topic) as [p|]; [| split; [reflexivity | discriminate]].
    cbn [fst snd currentPhase]. split; [reflexivity |].
    intros p' next completed [= _ <- _]. split; reflexivity.
Qed.

(** A topic the learner has completed. *)
Definition completedTopic (st : State) (topic : GrammarTopics.Topic) : Prop :=
  GrammarTopics.incomplete st topic = false.

(** The first topic of a level, tagged as a suggestion of that level. *)
Definition suggested (level : string) (first : GrammarTopics.Topic)
    : GrammarTopics.Topic :=
  GrammarTopics.mkTopic (GrammarTopics.topic_id first)
    (GrammarTopics.topic_name first) (GrammarTopics.topic_name_ru first)
    (Some level).

Lemma filter_incomplete_nil st (topics : list GrammarTopics.Topic) :
  Forall (completedTopic st) topics ->
  filter (fun topic => GrammarTopics.incomplete st topic = true) topics = [].
Proof.
  induction 1 as [|topic rest Hc _ IH]; [reflexivity |].
  rewrite filter_cons, IH. unfold completedTopic in Hc.
  rewrite decide_False by congruence. reflexivity.
Qed.

(** X20: [getNextTopic] returns the first topic of the learner's level that
    is not completed.  When every topic of the level is completed it
    suggests the first topic of the next level, whether or not that topic
    is itself completed; at C1 it returns nothing; and for a level that is
    not on the scale and has no topics it suggests the first A1 topic. *)
Theorem next_topic (TOPICS : gmap string (list GrammarTopics.Topic))
    (userLevel : string) (st : State) :
  let topics := default [] (TOPICS !! userLevel) in
  (forall before topic after,
     topics = before ++ topic :: after ->
     Forall (completedTopic st) before ->
     GrammarTopics.incomplete st topic = true ->
     GrammarTopics.getNextTopic TOPICS userLevel st = Some topic) /\
  (Forall (completedTopic st) topics ->
   (userLevel = "C1" -> GrammarTopics.getNextTopic TOPICS userLevel st = None) /\
   (forall nextLevel first rest,
      ((userLevel, nextLevel)
         ∈ [("A1", "A2"); ("A2", "B1"); ("B1", "B2"); ("B2", "C1")])
      \/ ((userLevel ∉ GrammarTopics.levels) /\ nextLevel = "A1") ->
      TOPICS !! nextLevel = Some (first :: rest) ->
      GrammarTopics.getNextTopic TOPICS userLevel st
        = Some (suggested nextLevel first))).
Proof.
  intros topics. unfold GrammarTopics.getNextTopic. fold topics. split.
  - intros before topic after -> Hbefore Hinc.
    rewrite filter_app, (filter_incomplete_nil st before Hbefore), filter_cons.
    rewrite decide_True by exact Hinc. reflexivity.
  - intros Hall. rewrite (filter_incomplete_nil st topics Hall). split.
    + intros ->. reflexivity.
    + intros nextLevel first rest Hlevels Hnext.
      assert (Hidx : (indexOf GrammarTopics.levels userLevel
                        <? Z.of_nat (length GrammarTopics.levels) - 1) = true
                     /\ at_index GrammarTopics.levels
                          (indexOf GrammarTopics.levels userLevel + 1)
                        = Some nextLevel).
      { destruct Hlevels as [Hpair | [Hout ->]].
        - repeat (apply elem_of_cons in Hpair as [[= -> ->] | Hpair];
                  [split; reflexivity |]).
          inversion Hpair.
        - assert (indexOf GrammarTopics.levels userLevel = -1) as ->.
          { unfold GrammarTopics.levels in *.
            repeat (apply not_elem_of_cons in Hout as [? Hout]).
            cbn. rewrite !decide_False by congruence. reflexivity. }
          split; reflexivity. }
      destruct Hidx as [-> ->]. rewrite Hnext. reflexivity.
Qed.

End Grammar_more.

(** ** More on the placement test *)

Section PlacementTest_more.
Import PlacementTest PlacementRun.

Lemma selectQuestion_Some banks random section level usedIds question :
  selectQuestion banks random section level usedIds = Some question ->
  sel_level question = level /\ sel_section question = section /\
  (questionId level section (sel_question question) ∉ usedIds) /\
  exists bank qs, banks !! level = Some bank /\
                  bySection bank !! section = Some qs /\
                  sel_question question ∈ qs.
Proof.
  unfold selectQuestion, availableQuestions. intros H.
  destruct (banks !! level) as [bank|] eqn:Hbank; [| discriminate].
  cbn [mbind option_bind] in H.
  destruct (bySection bank !! section) as [qs|] eqn:Hqs; [| discriminate].
  cbn [mbind option_bind] in H.
  destruct (filter _ qs) as [|q0 rest] eqn:Hf; [discriminate |].
  destruct ((q0 :: rest) !! _) as [q|] eqn:Hq; [| discriminate].
  cbn in H. injection H as <-. cbn.
  apply list_elem_of_lookup_2 in Hq. rewrite <- Hf in Hq.
  apply list_elem_of_filter in Hq as [Hfresh Hin].
  split; [reflexivity |]. split; [reflexivity |]. split; [exact Hfresh |].
  exists bank, qs. auto.
Qed.

Lemma selectAdjacent_Some banks random section tryLevels usedIds question :
  selectAdjacent banks random section tryLevels usedIds = Some question ->
  exists level, level ∈ tryLevels /\
    selectQuestion banks random section level usedIds = Some question.
Proof.
  induction tryLevels as [|level rest IH]; cbn; [discriminate |].
  destruct (selectQuestion banks random section level usedIds) as [q|] eqn:Hq.
  - intros [= <-]. exists level. split; [left | exact Hq].
  - intros H. destruct (IH H) as (l & Hl & Hs). exists l. split; [right |]; assumption.
Qed.

Lemma adjacentLevels_on_scale currentLevel level :
  level ∈ adjacentLevels currentLevel -> level ∈ levels.
Proof.
  unfold adjacentLevels. rewrite list_elem_of_omap.
  intros (i & _ & Hi). unfold at_index in Hi.
  destruct (i <? 0); [discriminate |].
  eapply list_elem_of_lookup_2, Hi.
Qed.

(** What one call of [getNextQuestion] can do: return without touching the
    state, or ask a question selected at the current level, or at an
    adjacent level when the current one has none left. *)
Lemma getNextQuestion_cases fuel random st :
  (snd (getNextQuestion fuel random st) = st /\
   forall formatted, fst (getNextQuestion fuel random st) <> Question_ formatted) \/
  exists s question,
    testSession st = Some s /\ testEnds s = false /\
    (selectQuestion (questionBanks st) random (sectionFor (questionCount s))
       (currentLevel s) (usedQuestionIds s) = Some question
     \/ (selectQuestion (questionBanks st) random (sectionFor (questionCount s))
           (currentLevel s) (usedQuestionIds s) = None /\
         exists level, level ∈ adjacentLevels (currentLevel s) /\
           selectQuestion (questionBanks st) random (sectionFor (questionCount s))
             level (usedQuestionIds s) = Some question)) /\
    getNextQuestion fuel random st
    = (Question_ (fst (formatQuestion question (sectionFor (questionCount s))
                         (questionCount s) s)),
       set_session (snd (formatQuestion question (sectionFor (questionCount s))
                           (questionCount s) s)) st).
Proof.
  induction fuel as [|fuel IH]; [left; split; [reflexivity | discriminate] |].
  cbn [getNextQuestion].
  destruct (testSession st) as [s|] eqn:Hs;
    [| left; split; [reflexivity | discriminate]].
  fold (testEnds s).
  destruct (testEnds s) eqn:He; [left; split; [reflexivity | discriminate] |].
  destruct (selectQuestion _ _ _ (currentLevel s) _) as [q|] eqn:Hq.
  - right. exists s, q. split; [reflexivity |]. split; [exact He |].
    split; [left; exact Hq |].
    destruct (formatQuestion _ _ _ _); reflexivity.
  - destruct (selectAdjacent _ _ _ _ _) as [q|] eqn:Ha.
    + right. exists s, q. split; [reflexivity |]. split; [exact He |]. split.
      * right. split; [exact Hq |]. apply selectAdjacent_Some, Ha.
      * destruct (formatQuestion _ _ _ _); reflexivity.
    + exact IH.
Qed.

(** *** One call of [getNextQuestion] *)

Lemma sectionFor_in questionCount : sectionFor questionCount ∈ sections.
Proof.
  unfold sectionFor.
  destruct (sections !! (questionCount mod length sections)%nat) as [section|] eqn:E.
  - eapply list_elem_of_lookup_2, E.
  - apply lookup_ge_None in E.
    pose proof (Nat.mod_upper_bound questionCount (length sections)) as Hlt.
    cbn in *. lia.
Qed.

Lemma formatQuestion_id question section questionCount s :
  f_id (fst (formatQuestion question section questionCount s))
  = questionId (sel_level question) section (sel_question question).
Proof. reflexivity. Qed.

(** X21: a call of [getNextQuestion] that returns a question returns one
    whose id was not used before, in the section whose turn it is, and
    records it: the id joins the used ids, the question is appended to the
    asked ones under the old count as index, the count goes up by one, and
    level, answers, scores and history are untouched. *)
Theorem asked_question_is_fresh fuel random st s formatted st' :
  testSession st = Some s ->
  getNextQuestion fuel random st = (Question_ formatted, st') ->
  exists s' question,
    testSession st' = Some s' /\ questionBanks st' = questionBanks st /\
    (f_id formatted ∉ usedQuestionIds s) /\
    usedQuestionIds s' = {[f_id formatted]} ∪ usedQuestionIds s /\
    questions s' = questions s ++ [mkAsked question (f_id formatted) (questionCount s)] /\
    sel_section question = f_section formatted /\
    sel_level question = f_level formatted /\
    f_section formatted = sectionFor (questionCount s) /\
    questionNumber formatted = (questionCount s + 1)%nat /\
    questionCount s' = S (questionCount s) /\
    currentLevel s' = currentLevel s /\ answers s' = answers s /\
    sectionScores s' = sectionScores s /\ levelHistory s' = levelHistory s.
Proof.
  intros Hs Hnext.
  destruct (getNextQuestion_cases fuel random st)
    as [[_ Hno] | (s0 & q & Hs0 & _ & Hsel & Heq)].
  { exfalso. apply (Hno formatted). rewrite Hnext. reflexivity. }
  rewrite Hs in Hs0. injection Hs0 as <-.
  rewrite Hnext in Heq. injection Heq as -> ->.
  assert (Hq : sel_section q = sectionFor (questionCount s) /\
               questionId (sel_level q) (sectionFor (questionCount s)) (sel_question q)
               ∉ usedQuestionIds s).
  { destruct Hsel as [Hsel | (_ & level & _ & Hsel)];
      apply selectQuestion_Some in Hsel as (<- & Hsec & Hfresh & _);
      split; assumption. }
  destruct Hq as [Hsec Hfresh].
  eexists _, q. cbn.
  repeat split; try reflexivity; assumption.
Qed.

(** A test on [a2Bank], started, and its first question (drawing 0 from
    [Math.random]). *)
Definition started : State := startTest 0 (mkState None {[ "A2" := a2Bank ]}).

Definition firstAsked : State := snd (getNextQuestion 1 0%Q started).

Definition firstQuestion : Formatted :=
  match fst (getNextQuestion 1 0%Q started) with
  | Question_ formatted => formatted
  | _ => mkFormatted EmptyString EmptyString EmptyString 0 0 EmptyString []
  end.

Lemma asked_question_is_fresh_witness :
  exists s' question,
    testSession firstAsked = Some s' /\
    questionBanks firstAsked = questionBanks started /\
    (f_id firstQuestion ∉ usedQuestionIds (sessionOf started)) /\
    usedQuestionIds s' = {[f_id firstQuestion]} ∪ usedQuestionIds (sessionOf started) /\
    questions s' = questions (sessionOf started)
                   ++ [mkAsked question (f_id firstQuestion)
                               (questionCount (sessionOf started))] /\
    sel_section question = f_section firstQuestion /\
    sel_level question = f_level firstQuestion /\
    f_section firstQuestion = sectionFor (questionCount (sessionOf started)) /\
    questionNumber firstQuestion = (questionCount (sessionOf started) + 1)%nat /\
    questionCount s' = S (questionCount (sessionOf started)) /\
    currentLevel s' = currentLevel (sessionOf started) /\
    answers s' = answers (sessionOf started) /\
    sectionScores s' = sectionScores (sessionOf started) /\
    levelHistory s' = levelHistory (sessionOf started).
Proof.
  apply (asked_question_is_fresh 1 0%Q started (sessionOf started)
                                 firstQuestion firstAsked).
  - reflexivity.
  - vm_compute. reflexivity.
Defined.

Lemma adjacentLevels_near currentLevel level :
  currentLevel ∈ levels -> level ∈ adjacentLevels currentLevel ->
  level <> currentLevel /\
  -2 <= position level - position currentLevel <= 2.
Proof.
  intros Hc Hl. apply level_cases in Hc.
  destruct Hc as [-> | [-> | [-> | [-> | ->]]]];
    match type of Hl with
    | _ ∈ adjacentLevels ?c =>
        let v := eval vm_compute in (adjacentLevels c) in
        change (adjacentLevels c) with v in Hl
    end;
    rewrite !elem_of_cons, elem_of_nil in Hl;
    repeat match type of Hl with
    | _ \/ _ => destruct Hl as [-> | Hl]
    | False => destruct Hl
    end;
    (split; [discriminate | vm_compute; split; discriminate]).
Qed.

(** With [random] in [0, 1), as [Math.random] gives it, a selection fails
    only when the bank has no unused question for the section and level. *)
Lemma selectQuestion_None banks random section level usedIds :
  (0 <= random)%Q -> (random < 1)%Q ->
  selectQuestion banks random section level usedIds = None ->
  default [] (availableQuestions banks section level usedIds) = [].
Proof.
  intros H0 H1. unfold selectQuestion.
  destruct (availableQuestions banks section level usedIds)
    as [[|q available]|]; [reflexivity | | reflexivity].
  set (n := length (q :: available)).
  destruct ((q :: available) !! Z.to_nat (Qfloor (random * inject_Z (Z.of_nat n))))
    as [q'|] eqn:E; [discriminate |].
  intros _. exfalso. apply lookup_ge_None in E. fold n in E.
  assert (Hn : (0 < inject_Z (Z.of_nat n))%Q).
  { change 0%Q with (inject_Z 0). rewrite <- Zlt_Qlt. unfold n. cbn [length]. lia. }
  assert (Hpos : (0 < n)%nat) by (unfold n; cbn [length]; lia).
  assert (Hlt : (random * inject_Z (Z.of_nat n) < inject_Z (Z.of_nat n))%Q).
  { rewrite <- (Qmult_1_l (inject_Z (Z.of_nat n))) at 2.
    apply Qmult_lt_compat_r; assumption. }
  pose proof (Qfloor_le (random * inject_Z (Z.of_nat n))) as Hfl.
  assert (Hz : (inject_Z (Qfloor (random * inject_Z (Z.of_nat n)))
                < inject_Z (Z.of_nat n))%Q)
    by (eapply Qle_lt_trans; eassumption).
  rewrite <- Zlt_Qlt in Hz. lia.
Qed.

(** X22: the level of the question asked is on the scale and at most two
    positions from the current level; it differs from the current level
    only when the bank of the current level has no unused question left for
    the section. *)
Theorem asked_level_near_current fuel random st s formatted st' :
  testSession st = Some s -> currentLevel s ∈ levels ->
  (0 <= random)%Q -> (random < 1)%Q ->
  getNextQuestion fuel random st = (Question_ formatted, st') ->
  f_level formatted ∈ levels /\
  -2 <= position (f_level formatted) - position (currentLevel s) <= 2 /\
  (f_level formatted <> currentLevel s ->
   default [] (availableQuestions (questionBanks st) (sectionFor (questionCount s))
                                  (currentLevel s) (usedQuestionIds s)) = []).
Proof.
  intros Hs Hin H0 H1 Hnext.
  destruct (getNextQuestion_cases fuel random st)
    as [[_ Hno] | (s0 & q & Hs0 & _ & Hsel & Heq)].
  { exfalso. apply (Hno formatted). rewrite Hnext. reflexivity. }
  rewrite Hs in Hs0. injection Hs0 as <-.
  rewrite Hnext in Heq. injection Heq as -> _. cbn [formatQuestion fst f_level].
  destruct Hsel as [Hsel | (Hnone & level & Hadj & Hsel)];
    apply selectQuestion_Some in Hsel as (-> & _).
  - split; [exact Hin |]. split; [lia | congruence].
  - destruct (adjacentLevels_near _ _ Hin Hadj) as [_ Hnear].
    split; [eapply adjacentLevels_on_scale, Hadj |]. split; [exact Hnear |].
    intros _. apply (selectQuestion_None _ random); assumption.
Qed.

Lemma asked_level_near_current_witness :
  f_level firstQuestion ∈ levels /\
  -2 <= position (f_level firstQuestion) - position (currentLevel (sessionOf started)) <= 2 /\
  (f_level firstQuestion <> currentLevel (sessionOf started) ->
   default [] (availableQuestions (questionBanks started)
                 (sectionFor (questionCount (sessionOf started)))
                 (currentLevel (sessionOf started))
                 (usedQuestionIds (sessionOf started))) = []).
Proof.
  apply (asked_level_near_current 1 0%Q started (sessionOf started)
                                  firstQuestion firstAsked).
  - reflexivity.
  - apply (bool_decide_unpack _). vm_compute. exact I.
  - vm_compute. discriminate.
  - vm_compute. reflexivity.
  - vm_compute. reflexivity.
Defined.

(** *** Runs of the test *)

Lemma adaptLevel_set s :
  adaptLevel s = set_currentLevel (currentLevel (adaptLevel s)) s.
Proof.
  unfold adaptLevel.
  repeat match goal with
  | |- context [if ?b then _ else _] => destruct b
  | |- context [match ?o with Some _ => _ | None => _ end] => destruct o
  end; cbn; rewrite ?set_currentLevel_same; reflexivity.
Qed.

(** The answer [submitAnswer] records for the current question. *)
Definition answerTo (answerIndex : Z) (q : Asked) : Answer :=
  mkAnswer (index q) (qId q) answerIndex
           (bool_decide (answerIndex = correct (sel_question (asked q))))
           (sel_level (asked q)) (sel_section (asked q)).

(** The session [submitAnswer] hands to [adaptLevel]. *)
Definition recorded (answerIndex : Z) (q : Asked) (scores : SectionScore)
    (levelScore : LevelScore) (s : Session) : Session :=
  let a := answerTo answerIndex q in
  let bump (n : Z) := if a_correct a then n + 1 else n in
  mkSession (startTime s) (currentLevel s) (questions s) (answers s ++ [a])
    (<[a_section a :=
         mkSectionScore (bump (ss_correct scores)) (ss_total scores + 1)
           (<[a_level a := mkLevelScore (bump (ls_correct levelScore))
                                         (ls_total levelScore + 1)]>
              (byLevel scores))]> (sectionScores s))
    (usedQuestionIds s) (questionCount s)
    (levelHistory s ++ [mkHistory (a_level a) (a_correct a)])
    (finished s) (endTime s).

Lemma submitAnswer_Some answerIndex s verdict s' :
  submitAnswer answerIndex s = Some (verdict, s') ->
  exists q scores levelScore,
    last (questions s) = Some q /\
    sectionScores s !! sel_section (asked q) = Some scores /\
    byLevel scores !! sel_level (asked q) = Some levelScore /\
    s' = adaptLevel (recorded answerIndex q scores levelScore s).
Proof.
  unfold submitAnswer. intros H.
  destruct (last (questions s)) as [q|]; [| discriminate].
  cbn [mbind option_bind] in H.
  destruct (sectionScores s !! sel_section (asked q)) as [scores|] eqn:Hsc;
    [| discriminate].
  cbn [mbind option_bind] in H.
  destruct (byLevel scores !! sel_level (asked q)) as [levelScore|] eqn:Hl;
    [| discriminate].
  cbn [mbind option_bind] in H. injection H as _ <-.
  exists q, scores, levelScore. repeat split; assumption || reflexivity.
Qed.

(** The answers given in a section, those of them at a level, and the right
    ones among some answers. *)
Definition answeredIn (section : string) (answers : list Answer) : list Answer :=
  filter (fun a => a_section a = section) answers.

Definition answeredAt (level : string) (answers : list Answer) : list Answer :=
  filter (fun a => a_level a = level) answers.

Definition rightOnes (answers : list Answer) : list Answer :=
  filter (fun a => a_correct a = true) answers.

Definition count (answers : list Answer) : Z := Z.of_nat (length answers).

(** The score records say what the answer log says. *)
Definition scoresAgree (s : Session) : Prop :=
  forall section, section ∈ sections ->
    exists scores,
      sectionScores s !! section = Some scores /\
      ss_total scores = count (answeredIn section (answers s)) /\
      ss_correct scores = count (rightOnes (answeredIn section (answers s))) /\
      forall level, level ∈ levels ->
        exists levelScore,
          byLevel scores !! level = Some levelScore /\
          ls_total levelScore
          = count (answeredAt level (answeredIn section (answers s))) /\
          ls_correct levelScore
          = count (rightOnes (answeredAt level (answeredIn section (answers s)))).

(** What holds of the session all along a run. *)
Record session_inv (s : Session) : Prop := {
  inv_level : currentLevel s ∈ levels;
  inv_count : questionCount s = length (questions s);
  inv_max : (questionCount s <= maxQuestions)%nat;
  inv_used : usedQuestionIds s = list_to_set (map qId (questions s));
  inv_nodup : NoDup (map qId (questions s));
  inv_asked : Forall (fun q => sel_section (asked q) ∈ sections /\
                               sel_level (asked q) ∈ levels) (questions s);
  inv_history :
    levelHistory s = map (fun a => mkHistory (a_level a) (a_correct a)) (answers s);
  inv_scores : scoresAgree s
}.

Lemma startTest_inv now st s :
  testSession (startTest now st) = Some s -> session_inv s.
Proof.
  intros [= <-]. split; cbn.
  - apply (bool_decide_unpack _). vm_compute. exact I.
  - reflexivity.
  - unfold maxQuestions. lia.
  - reflexivity.
  - constructor.
  - constructor.
  - reflexivity.
  - intros section Hsec. cbn [answers sectionScores].
    exists (mkSectionScore 0 0
              (list_to_map (map (fun level => (level, mkLevelScore 0 0)) levels))).
    split.
    { unfold sections in Hsec. rewrite !elem_of_cons, elem_of_nil in Hsec.
      destruct Hsec as [-> | [-> | [-> | [-> | []]]]]; vm_compute; reflexivity. }
    split; [reflexivity |]. split; [reflexivity |].
    intros level Hlevel. exists (mkLevelScore 0 0).
    split; [| split; reflexivity].
    apply level_cases in Hlevel.
    destruct Hlevel as [-> | [-> | [-> | [-> | ->]]]]; vm_compute; reflexivity.
Qed.

Lemma formatQuestion_inv question s :
  session_inv s -> testEnds s = false ->
  sel_section question = sectionFor (questionCount s) ->
  sel_level question ∈ levels ->
  (questionId (sel_level question) (sectionFor (questionCount s))
              (sel_question question) ∉ usedQuestionIds s) ->
  session_inv (snd (formatQuestion question (sectionFor (questionCount s))
                                   (questionCount s) s)).
Proof.
  intros [] Hends Hsec Hlevel Hfresh.
  unfold formatQuestion. cbn [snd]. fold (questionId (sel_level question)
    (sectionFor (questionCount s)) (sel_question question)).
  set (qid := questionId _ _ _) in *.
  split; cbn [currentLevel questionCount questions usedQuestionIds answers
              levelHistory sectionScores].
  - assumption.
  - rewrite length_app. cbn. lia.
  - unfold testEnds in Hends. apply orb_false_iff in Hends as [Hmax _].
    apply Nat.leb_gt in Hmax. lia.
  - rewrite map_app, list_to_set_app_L, <- inv_used0. cbn.
    rewrite union_empty_r_L. apply union_comm_L.
  - rewrite map_app. apply NoDup_app. split; [assumption |]. split.
    + intros x Hx. cbn. rewrite list_elem_of_singleton. intros ->.
      apply Hfresh. rewrite inv_used0. apply elem_of_list_to_set, Hx.
    + apply NoDup_singleton.
  - apply Forall_app. split; [assumption |].
    constructor; [| constructor]. cbn. split; [| assumption].
    rewrite Hsec. apply sectionFor_in.
  - assumption.
  - assumption.
Qed.

Lemma getNextQuestion_inv fuel random st s s' :
  testSession st = Some s -> session_inv s ->
  testSession (snd (getNextQuestion fuel random st)) = Some s' ->
  session_inv s'.
Proof.
  intros Hs Hinv Hs'.
  destruct (getNextQuestion_cases fuel random st)
    as [[Hsame _] | (s0 & q & Hs0 & Hends & Hsel & Heq)].
  { rewrite Hsame, Hs in Hs'. injection Hs' as <-. exact Hinv. }
  rewrite Hs in Hs0. injection Hs0 as <-.
  rewrite Heq in Hs'. cbn in Hs'. injection Hs' as <-.
  assert (Hq : sel_level q ∈ levels /\
               sel_section q = sectionFor (questionCount s) /\
               questionId (sel_level q) (sectionFor (questionCount s))
                          (sel_question q) ∉ usedQuestionIds s).
  { destruct Hsel as [Hsel | (_ & level & Hadj & Hsel)];
      apply selectQuestion_Some in Hsel as (Hlevel & Hsec & Hfresh & _);
      rewrite Hlevel; (split; [| split; assumption]).
    - apply Hinv.
    - eapply adjacentLevels_on_scale, Hadj. }
  destruct Hq as (Hlevel & Hsec & Hfresh).
  apply formatQuestion_inv; assumption.
Qed.

Lemma filter_snoc {A} (P : A -> Prop) `{!forall x, Decision (P x)} (l : list A) (x : A) :
  filter P (l ++ [x]) = filter P l ++ (if decide (P x) then [x] else []).
Proof.
  rewrite filter_app, filter_cons, filter_nil. reflexivity.
Qed.

Ltac tally :=
  unfold count, rightOnes, answeredAt, answeredIn in *;
  repeat first [rewrite filter_snoc | rewrite app_nil_r | case_decide];
  rewrite ?length_app; cbn [length]; try congruence; try lia.

Lemma recorded_scores answerIndex q scores levelScore s :
  scoresAgree s ->
  sectionScores s !! sel_section (asked q) = Some scores ->
  byLevel scores !! sel_level (asked q) = Some levelScore ->
  scoresAgree (recorded answerIndex q scores levelScore s).
Proof.
  intros Hagree Hsc Hl section Hsec.
  destruct (Hagree section Hsec) as (scores0 & Hlook & Htotal & Hcorrect & Hlevels).
  unfold recorded. cbv zeta. cbn [sectionScores answers].
  change (a_section (answerTo answerIndex q)) with (sel_section (asked q)) at 1.
  change (a_level (answerTo answerIndex q)) with (sel_level (asked q)) at 1.
  set (a := answerTo answerIndex q).
  assert (Ea : a_section a = sel_section (asked q)) by reflexivity.
  assert (El : a_level a = sel_level (asked q)) by reflexivity.
  clearbody a.
  destruct (decide (sel_section (asked q) = section)) as [Hs | Hne].
  - rewrite Hs, lookup_insert_eq. rewrite Hs, Hlook in Hsc. injection Hsc as ->.
    eexists. split; [reflexivity |]. cbn [ss_total ss_correct byLevel].
    split; [tally |]. split; [destruct (a_correct a) eqn:Hc; tally |].
    intros level Hlevel.
    destruct (Hlevels level Hlevel) as (levelScore0 & Hlook0 & Htotal0 & Hcorrect0).
    destruct (decide (sel_level (asked q) = level)) as [Hlv | Hlne].
    + rewrite Hlv, lookup_insert_eq. rewrite Hlv, Hlook0 in Hl. injection Hl as ->.
      eexists. split; [reflexivity |]. cbn [ls_total ls_correct].
      split; [tally | destruct (a_correct a) eqn:Hc; tally].
    + rewrite lookup_insert_ne by exact Hlne.
      exists levelScore0. split; [exact Hlook0 |].
      split; [tally | tally].
  - rewrite lookup_insert_ne by exact Hne.
    exists scores0. split; [exact Hlook |].
    split; [tally |]. split; [tally |].
    intros level Hlevel.
    destruct (Hlevels level Hlevel) as (levelScore0 & Hlook0 & Htotal0 & Hcorrect0).
    exists levelScore0. split; [exact Hlook0 |].
    split; tally.
Qed.

Lemma submitAnswer_inv answerIndex s verdict s' :
  session_inv s -> submitAnswer answerIndex s = Some (verdict, s') ->
  session_inv s'.
Proof.
  intros Hinv Hsub.
  apply submitAnswer_Some in Hsub as (q & scores & levelScore & _ & Hsc & Hl & ->).
  rewrite adaptLevel_set. destruct Hinv.
  split; cbn [set_currentLevel recorded currentLevel questionCount questions
              usedQuestionIds answers levelHistory sectionScores]; try assumption.
  - apply adaptLevel_in_levels. assumption.
  - rewrite map_app, inv_history0. reflexivity.
  - apply (recorded_scores answerIndex q scores levelScore s); assumption.
Qed.

Lemma reachable_inv st s :
  reachable st -> testSession st = Some s -> session_inv s.
Proof.
  intros Hreach. revert s.
  induction Hreach as [now st | fuel random st _ IH
                       | answerIndex st s0 verdict s' _ IH Hs0 Hsub];
    intros s Hs.
  - eapply startTest_inv, Hs.
  - destruct (testSession st) as [s0|] eqn:Hs0.
    + eapply getNextQuestion_inv; [exact Hs0 | apply IH; reflexivity | exact Hs].
    + destruct (getNextQuestion_cases fuel random st)
        as [[Hsame _] | (s1 & _ & Hs1 & _)]; [| congruence].
      rewrite Hsame, Hs0 in Hs. discriminate.
  - injection Hs as <-. eapply submitAnswer_inv; [apply IH, Hs0 | exact Hsub].
Qed.

(** X23: in a run of the test no question is asked twice: the ids of the
    questions asked are pairwise different, they are exactly the used ids,
    and the question count is the number of questions asked. *)
Theorem no_question_asked_twice st s :
  reachable st -> testSession st = Some s ->
  NoDup (map qId (questions s)) /\
  usedQuestionIds s = list_to_set (map qId (questions s)) /\
  questionCount s = length (questions s).
Proof.
  intros Hreach Hs. destruct (reachable_inv st s Hreach Hs).
  repeat split; assumption.
Qed.

Lemma no_question_asked_twice_witness :
  NoDup (map qId (questions (sessionOf firstAsked))) /\
  usedQuestionIds (sessionOf firstAsked)
  = list_to_set (map qId (questions (sessionOf firstAsked))) /\
  questionCount (sessionOf firstAsked) = length (questions (sessionOf firstAsked)).
Proof.
  apply (no_question_asked_twice firstAsked (sessionOf firstAsked)).
  - unfold firstAsked, started. apply reach_ask, reach_start.
  - vm_compute. reflexivity.
Defined.

(** X24: a run of the test never asks more than [maxQuestions] questions. *)
Theorem at_most_max_questions st s :
  reachable st -> testSession st = Some s ->
  (length (questions s) <= maxQuestions)%nat.
Proof.
  intros Hreach Hs. destruct (reachable_inv st s Hreach Hs).
  rewrite <- inv_count0. assumption.
Qed.

Lemma at_most_max_questions_witness :
  (length (questions (sessionOf firstAsked)) <= maxQuestions)%nat.
Proof.
  apply (at_most_max_questions firstAsked (sessionOf firstAsked)).
  - unfold firstAsked, started. apply reach_ask, reach_start.
  - vm_compute. reflexivity.
Defined.

Lemma count_filter_le {A} (P : A -> Prop) `{!forall x, Decision (P x)} (l : list A) :
  (length (filter P l) <= length l)%nat.
Proof. apply length_filter. Qed.

(** X25: all along a run the score records agree with the answer log: a
    section's total is the number of answers given in the section and its
    correct count the number of right ones among them, likewise for each
    level within the section; the level history lists level and outcome of
    each answer in order; and a section's correct count is between 0 and
    its total, which is at most the number of answers. *)
Theorem scores_agree_with_answers st s :
  reachable st -> testSession st = Some s ->
  scoresAgree s /\
  levelHistory s = map (fun a => mkHistory (a_level a) (a_correct a)) (answers s) /\
  forall section scores,
    section ∈ sections -> sectionScores s !! section = Some scores ->
    0 <= ss_correct scores <= ss_total scores /\
    ss_total scores <= Z.of_nat (length (answers s)).
Proof.
  intros Hreach Hs. destruct (reachable_inv st s Hreach Hs).
  split; [assumption |]. split; [assumption |].
  intros section scores Hsec Hlook.
  destruct (inv_scores0 section Hsec) as (scores0 & Hlook0 & Htotal & Hcorrect & _).
  rewrite Hlook in Hlook0. injection Hlook0 as <-.
  rewrite Htotal, Hcorrect. unfold count, rightOnes, answeredIn.
  pose proof (count_filter_le (fun a => a_correct a = true)
                (filter (fun a => a_section a = section) (answers s))).
  pose proof (count_filter_le (fun a => a_section a = section) (answers s)).
  lia.
Qed.

(** The test on [a2Bank] after its first question is answered with
    option 0. *)
Definition firstAnswered : Session :=
  match submitAnswer 0 (sessionOf firstAsked) with
  | Some (_, s) => s
  | None => sessionOf firstAsked
  end.

Definition firstVerdict : Verdict :=
  match submitAnswer 0 (sessionOf firstAsked) with
  | Some (verdict, _) => verdict
  | None => mkVerdict false 0 None
  end.

Lemma scores_agree_with_answers_witness :
  scoresAgree firstAnswered /\
  levelHistory firstAnswered
  = map (fun a => mkHistory (a_level a) (a_correct a)) (answers firstAnswered) /\
  forall section scores,
    section ∈ sections -> sectionScores firstAnswered !! section = Some scores ->
    0 <= ss_correct scores <= ss_total scores /\
    ss_total scores <= Z.of_nat (length (answers firstAnswered)).
Proof.
  apply (scores_agree_with_answers (set_session firstAnswered firstAsked)
                                   firstAnswered).
  - apply (reach_submit 0 firstAsked (sessionOf firstAsked) firstVerdict).
    + unfold firstAsked, started. apply reach_ask, reach_start.
    + vm_compute. reflexivity.
    + vm_compute. reflexivity.
  - reflexivity.
Defined.

Lemma submitAnswer_None answerIndex s :
  session_inv s -> submitAnswer answerIndex s = None <-> questions s = [].
Proof.
  intros []. unfold submitAnswer. split.
  - destruct (last (questions s)) as [q|] eqn:Hlast;
      [| intros _; apply last_None, Hlast].
    pose proof (last_Some_elem_of _ _ Hlast) as Hq.
    rewrite Forall_forall in inv_asked0.
    destruct (inv_asked0 q Hq) as [Hsec Hlevel].
    destruct (inv_scores0 _ Hsec) as (scores & Hlook & _ & _ & Hlevels).
    destruct (Hlevels _ Hlevel) as (levelScore & Hlook' & _).
    cbn [mbind option_bind]. rewrite Hlook. cbn [mbind option_bind].
    rewrite Hlook'. discriminate.
  - intros ->. reflexivity.
Qed.

(** X26: in a run of the test [submitAnswer] raises exactly when no question
    has been asked yet: once a question is asked, the score records of its
    section and level exist. *)
Theorem submitAnswer_raises_only_before_first_question answerIndex st s :
  reachable st -> testSession st = Some s ->
  submitAnswer answerIndex s = None <-> questions s = [].
Proof.
  intros Hreach Hs. apply submitAnswer_None, (reachable_inv st s Hreach Hs).
Qed.

Lemma submitAnswer_raises_only_before_first_question_witness :
  submitAnswer 0 (sessionOf started) = None <-> questions (sessionOf started) = [].
Proof.
  apply (submitAnswer_raises_only_before_first_question 0 started).
  - unfold started. apply reach_start.
  - reflexivity.
Defined.

Lemma oneStep_near level :
  level ∈ levels ->
  (0 <= position (oneStepUp level) - position level <= 1) /\
  (-1 <= position (oneStepDown level) - position level <= 0).
Proof.
  intros H. apply level_cases in H.
  destruct H as [-> | [-> | [-> | [-> | ->]]]];
    vm_compute; repeat split; discriminate.
Qed.

(** X27: in a run of the test the current level stays on the scale, and an
    answer moves it by at most one position. *)
Theorem answer_moves_level_one_step answerIndex st s verdict s' :
  reachable st -> testSession st = Some s ->
  submitAnswer answerIndex s = Some (verdict, s') ->
  currentLevel s ∈ levels /\ currentLevel s' ∈ levels /\
  -1 <= position (currentLevel s') - position (currentLevel s) <= 1.
Proof.
  intros Hreach Hs Hsub.
  pose proof (inv_level _ (reachable_inv st s Hreach Hs)) as Hin.
  pose proof (reach_submit _ _ _ _ _ Hreach Hs Hsub) as Hreach'.
  pose proof (inv_level _ (reachable_inv _ s' Hreach' eq_refl)) as Hin'.
  split; [exact Hin |]. split; [exact Hin' |].
  apply submitAnswer_Some in Hsub as (q & scores & levelScore & _ & _ & _ & ->).
  rewrite (adaptLevel_level (recorded answerIndex q scores levelScore s) Hin).
  cbv zeta. change (currentLevel (recorded answerIndex q scores levelScore s))
    with (currentLevel s).
  destruct (oneStep_near _ Hin) as [Hup Hdown].
  repeat match goal with
  | |- context [if ?b then _ else _] => destruct b
  end; lia.
Qed.

Lemma answer_moves_level_one_step_witness :
  currentLevel (sessionOf firstAsked) ∈ levels /\
  currentLevel firstAnswered ∈ levels /\
  -1 <= position (currentLevel firstAnswered)
        - position (currentLevel (sessionOf firstAsked)) <= 1.
Proof.
  apply (answer_moves_level_one_step 0 firstAsked (sessionOf firstAsked)
                                     firstVerdict firstAnswered).
  - unfold firstAsked, started. apply reach_ask, reach_start.
  - vm_compute. reflexivity.
  - vm_compute. reflexivity.
Defined.

(** X28: [submitAnswer] does not check that the current question is still
    unanswered: in a run, after an answer a second one is accepted for the
    same question, and both are recorded and scored. *)
Theorem answer_can_be_submitted_twice first second st s verdict s' :
  reachable st -> testSession st = Some s ->
  submitAnswer first s = Some (verdict, s') ->
  exists q verdict' s'',
    last (questions s) = Some q /\
    submitAnswer second s' = Some (verdict', s'') /\
    questions s'' = questions s /\
    answers s'' = answers s ++ [answerTo first q; answerTo second q].
Proof.
  intros Hreach Hs Hsub.
  pose proof (reach_submit _ _ _ _ _ Hreach Hs Hsub) as Hreach'.
  destruct (submitAnswer second s') as [[verdict' s'']|] eqn:Hsub'.
  - pose proof Hsub as Hsub0.
    apply submitAnswer_Some in Hsub as (q & scores & levelScore & Hlast & _ & _ & E).
    apply submitAnswer_Some in Hsub'
      as (q' & scores' & levelScore' & Hlast' & _ & _ & E').
    rewrite adaptLevel_set in E, E'. subst s'. cbn in Hlast'.
    rewrite Hlast in Hlast'. injection Hlast' as <-.
    exists q, verdict', s''. subst s''. cbn.
    split; [exact Hlast |]. split; [reflexivity |]. split; [reflexivity |].
    rewrite <- app_assoc. reflexivity.
  - exfalso.
    apply (submitAnswer_None second s' (reachable_inv _ s' Hreach' eq_refl)) in Hsub'.
    apply submitAnswer_Some in Hsub as (q & scores & levelScore & Hlast & _ & _ & E).
    rewrite adaptLevel_set in E. subst s'. cbn in Hsub'.
    rewrite Hsub' in Hlast. discriminate.
Qed.

Lemma answer_can_be_submitted_twice_witness :
  exists q verdict' s'',
    last (questions (sessionOf firstAsked)) = Some q /\
    submitAnswer 1 firstAnswered = Some (verdict', s'') /\
    questions s'' = questions (sessionOf firstAsked) /\
    answers s'' = answers (sessionOf firstAsked) ++ [answerTo 0 q; answerTo 1 q].
Proof.
  apply (answer_can_be_submitted_twice 0 1 firstAsked (sessionOf firstAsked)
                                       firstVerdict firstAnswered).
  - unfold firstAsked, started. apply reach_ask, reach_start.
  - vm_compute. reflexivity.
  - vm_compute. reflexivity.
Defined.

(** *** The test that neither ends nor continues *)

(** Whatever [Math.random] gives, nothing is selected where the bank has no
    unused question. *)
Lemma selectQuestion_nothing_left banks random section level usedIds :
  default [] (availableQuestions banks section level usedIds) = [] ->
  selectQuestion banks random section level usedIds = None.
Proof.
  unfold selectQuestion.
  destruct (availableQuestions banks section level usedIds) as [[|q qs]|];
    [reflexivity | discriminate | reflexivity].
Qed.

Lemma selectAdjacent_nothing_left banks random section tryLevels usedIds :
  Forall (fun level =>
            default [] (availableQuestions banks section level usedIds) = [])
         tryLevels ->
  selectAdjacent banks random section tryLevels usedIds = None.
Proof.
  induction 1 as [|level rest Hlevel _ IH]; [reflexivity |].
  cbn [selectAdjacent].
  rewrite (selectQuestion_nothing_left _ _ _ _ _ Hlevel). exact IH.
Qed.

(** While the test has not ended, a question is asked, at the current
    level, whenever the bank of that level has an unused question for the
    section whose turn it is. *)
Lemma question_asked_when_available fuel random st s :
  testSession st = Some s -> testEnds s = false ->
  (0 <= random)%Q -> (random < 1)%Q ->
  default [] (availableQuestions (questionBanks st) (sectionFor (questionCount s))
                                 (currentLevel s) (usedQuestionIds s)) <> [] ->
  exists formatted s',
    getNextQuestion (S fuel) random st = (Question_ formatted, set_session s' st) /\
    questionCount s' = S (questionCount s) /\
    f_level formatted = currentLevel s.
Proof.
  intros Hs Hends H0 H1 Havailable.
  destruct (selectQuestion (questionBanks st) random (sectionFor (questionCount s))
                           (currentLevel s) (usedQuestionIds s))
    as [question|] eqn:Hsel.
  - eapply getNextQuestion_current; eassumption.
  - destruct Havailable. eapply selectQuestion_None; eassumption.
Qed.

Lemma askAndAnswer_reachable st answerIndex :
  reachable st -> reachable (askAndAnswer st answerIndex).
Proof.
  intros Hreach. unfold askAndAnswer.
  pose proof (reach_ask 1 0%Q st Hreach) as Hasked.
  destruct (testSession (snd (getNextQuestion 1 0%Q st))) as [s|] eqn:Hs;
    [| exact Hasked].
  cbn [mbind option_bind].
  destruct (submitAnswer answerIndex s) as [[verdict s']|] eqn:Hsub;
    [| exact Hasked].
  eapply reach_submit; eassumption.
Qed.

Lemma askAndAnswer_run st answerIndices :
  reachable st -> reachable (fold_left askAndAnswer answerIndices st).
Proof.
  revert st. induction answerIndices as [|answerIndex rest IH]; intros st Hreach;
    [exact Hreach |].
  cbn [fold_left]. apply IH, askAndAnswer_reachable, Hreach.
Qed.

(** A bank for level A2 with one grammar question and two questions in
    every other section. *)
Definition unevenBank : Bank :=
  mkBank "A2" 7 []
    (list_to_map
       [("grammar", [item "g1"]);
        ("vocabulary", [item "v1"; item "v2"]);
        ("reading", [item "r1"; item "r2"]);
        ("listening_simulation", [item "l1"; item "l2"])]).

(** A test on [unevenBank] after one question of each section has been
    asked and answered (wrong, right, right, wrong). *)
Definition fourAnswered : State :=
  fold_left askAndAnswer [1; 0; 0; 1]
            (startTest 0 (mkState None {[ "A2" := unevenBank ]})).

(** C5, failing input: a test in which four questions have been asked and
    answered, on banks with one grammar question and two questions in each
    other section.  The state is reached by an ordinary run; fewer than 50
    questions have been asked, so the test has not ended; the turn is the
    grammar section's again, which has no question left at any level, while
    the vocabulary section, next in turn, still has one.  [getNextQuestion]
    does not continue the test: whatever [Math.random] gives, no depth of
    recursion returns a question or the end of the test, the call re-enters
    itself on the unchanged state. *)
Theorem test_neither_ends_nor_continues (fuel : nat) (random : Q) :
  let s := sessionOf fourAnswered in
  reachable fourAnswered /\
  testSession fourAnswered = Some s /\
  questionCount s = 4%nat /\ length (answers s) = 4%nat /\
  (questionCount s < minQuestions)%nat /\
  testEnds s = false /\
  sectionFor (questionCount s) = "grammar" /\
  sectionFor (S (questionCount s)) = "vocabulary" /\
  availableQuestions (questionBanks fourAnswered) "vocabulary" (currentLevel s)
                     (usedQuestionIds s) = Some [item "v2"] /\
  getNextQuestion fuel random fourAnswered = (Unfinished, fourAnswered) /\
  fst (getNextQuestion fuel random fourAnswered) <> Finished /\
  (forall formatted,
     fst (getNextQuestion fuel random fourAnswered) <> Question_ formatted).
Proof.
  intros s.
  assert (Hs : testSession fourAnswered = Some s) by (vm_compute; reflexivity).
  assert (Hends : testEnds s = false) by (vm_compute; reflexivity).
  assert (Hstuck : getNextQuestion fuel random fourAnswered
                   = (Unfinished, fourAnswered)).
  { apply (getNextQuestion_stuck fuel random fourAnswered s Hs Hends). split.
    - apply selectQuestion_nothing_left. vm_compute. reflexivity.
    - apply selectAdjacent_nothing_left.
      replace (adjacentLevels (currentLevel s)) with ["B1"; "A1"; "B2"]
        by (vm_compute; reflexivity).
      repeat constructor; vm_compute; reflexivity. }
  split; [apply askAndAnswer_run, reach_start |].
  split; [exact Hs |].
  split; [vm_compute; reflexivity |]. split; [vm_compute; reflexivity |].
  split; [vm_compute; lia |]. split; [exact Hends |].
  split; [vm_compute; reflexivity |]. split; [vm_compute; reflexivity |].
  split; [vm_compute; reflexivity |].
  split; [exact Hstuck |]. rewrite Hstuck. split; [discriminate |].
  intros formatted. discriminate.
Qed.

(** The same happens once a bank is used up: a test on [a2Bank], which has
    eight questions, after all eight have been asked and answered. *)
Definition eightAnswered : State :=
  fold_left askAndAnswer [1; 0; 0; 1; 0; 1; 0; 1]
            (startTest 0 (mkState None {[ "A2" := a2Bank ]})).

Example bank_used_up (fuel : nat) (random : Q) :
  reachable eightAnswered /\
  questionCount (sessionOf eightAnswered) = 8%nat /\
  getNextQuestion fuel random eightAnswered = (Unfinished, eightAnswered).
Proof.
  split; [apply askAndAnswer_run, reach_start |].
  split; [vm_compute; reflexivity |].
  apply (getNextQuestion_stuck fuel random eightAnswered (sessionOf eightAnswered));
    [vm_compute; reflexivity | vm_compute; reflexivity |].
  split.
  - apply selectQuestion_nothing_left. vm_compute. reflexivity.
  - apply selectAdjacent_nothing_left.
    replace (adjacentLevels (currentLevel (sessionOf eightAnswered)))
      with ["B1"; "A1"; "B2"] by (vm_compute; reflexivity).
    repeat constructor; vm_compute; reflexivity.
Qed.

(** *** The results *)

(** X29: the overall level of a finished test is on the scale; it is not
    below the level of the weakest section nor above that of the strongest;
    and when all sections have the same level, it is that level. *)
Theorem overall_between_section_levels (now : Z) (s : Session) :
  let outcome := fst (finishTest now s) in
  let sectionLevels := map (fun r => sr_level (snd r)) (results outcome) in
  overallLevel outcome ∈ levels /\
  (sectionLevels <> [] ->
   exists low high,
     low ∈ sectionLevels /\ high ∈ sectionLevels /\
     position low <= position (overallLevel outcome) <= position high) /\
  (forall level,
     sectionLevels <> [] -> (forall l, l ∈ sectionLevels -> l = level) ->
     overallLevel outcome = level).
Proof.
  intros outcome sectionLevels.
  assert (Hall : Forall (fun l => l ∈ levels) sectionLevels).
  { apply Forall_forall. intros l Hl. subst sectionLevels.
    apply list_elem_of_fmap in Hl as ([section r] & -> & Hr).
    apply sectionResults_entry in Hr as (scores & _ & Hlevel).
    cbn [snd]. rewrite Hlevel. apply determineSectionLevel_highest. }
  destruct (calculateOverallLevel_spec (results outcome) Hall) as [Hnil Hcons].
  fold sectionLevels in Hnil, Hcons.
  change (calculateOverallLevel (results outcome)) with (overallLevel outcome)
    in Hnil, Hcons.
  assert (Hfrequent : sectionLevels <> [] ->
            exists frequent low,
              frequent ∈ sectionLevels /\ low ∈ sectionLevels /\
              ((overallLevel outcome ∈ levels /\
                position low < position (overallLevel outcome) < position frequent)
               \/ (overallLevel outcome = frequent /\
                   position frequent - position low < 2))).
  { intros Hne.
    destruct (Hcons Hne) as (frequent & low & [Hf _] & [Hl _] & Hfar & Hnear).
    exists frequent, low. split; [exact Hf |]. split; [exact Hl |].
    destruct (Z_lt_le_dec (position frequent - position low) 2) as [Hlt | Hge].
    - right. split; [apply Hnear, Hlt | exact Hlt].
    - left. destruct (Hfar Hge) as [Hin Hpos]. split; [exact Hin | lia]. }
  split; [| split].
  - destruct sectionLevels as [|l rest] eqn:E.
    + rewrite Hnil by reflexivity. apply (bool_decide_unpack _). vm_compute. exact I.
    + destruct Hfrequent as (frequent & low & Hf & _ & [[Hin _] | [-> _]]);
        [discriminate | exact Hin |].
      rewrite Forall_forall in Hall. apply Hall, Hf.
  - intros Hne.
    destruct (Hfrequent Hne) as (frequent & low & Hf & Hl & [[_ Hpos] | [-> _]]).
    + exists low, frequent. split; [exact Hl |]. split; [exact Hf | lia].
    + exists frequent, frequent. split; [exact Hf |]. split; [exact Hf | lia].
  - intros level Hne Hsame.
    destruct (Hfrequent Hne) as (frequent & low & Hf & Hl & [[_ Hpos] | [-> _]]).
    + rewrite (Hsame _ Hf), (Hsame _ Hl) in Hpos. lia.
    + apply Hsame, Hf.
Qed.

End PlacementTest_more.

(** ** The report of the placement test *)

Section PlacementReport_facts.
Import PlacementTest PlacementReport.

(** A section counts for the weak area with at least 3 questions and an
    accuracy below 1. *)
Definition eligible (data : SectionResult) : Prop :=
  3 <= sr_total data /\ (sr_accuracy data < 1)%Q.

Definition weakestStep (found : option string * Q) (entry : string * SectionResult)
    : option string * Q :=
  let '(weakestSection, lowestAccuracy) := found in
  let '(section, data) := entry in
  if (3 <=? sr_total data) && Qltb (sr_accuracy data) lowestAccuracy
  then (Some section, sr_accuracy data)
  else (weakestSection, lowestAccuracy).

Lemma findWeakest_fold results :
  findWeakest results = fold_left weakestStep results (None, 1%Q).
Proof.
  unfold findWeakest. generalize (@None string, 1%Q).
  induction results as [|[section data] rest IH]; intros [weakestSection lowest];
    [reflexivity | apply IH].
Qed.

Lemma weakest_loop results found :
  let result := fold_left weakestStep results found in
  (snd result <= snd found)%Q /\
  (forall section data, (section, data) ∈ results -> 3 <= sr_total data ->
     (snd result <= sr_accuracy data)%Q) /\
  (result = found \/
   exists section data,
     fst result = Some section /\ (section, data) ∈ results /\
     3 <= sr_total data /\ (sr_accuracy data < snd found)%Q /\
     snd result = sr_accuracy data).
Proof.
  revert found.
  induction results as [|[section data] rest IH]; intros [weakestSection lowest];
    cbn [fold_left].
  - cbn. split; [lra |]. split; [| left; reflexivity].
    intros ? ? H. apply elem_of_nil in H. destruct H.
  - cbn [weakestStep].
    destruct ((3 <=? sr_total data) && Qltb (sr_accuracy data) lowest) eqn:Hcond.
    + apply andb_true_iff in Hcond as [Htotal Hlt].
      apply Z.leb_le in Htotal. apply Qltb_lt in Hlt.
      destruct (IH (Some section, sr_accuracy data)) as (Hle & Hmin & Hfound).
      cbn [fst snd] in *. split; [lra |]. split.
      * intros section' data' Hin Ht. apply elem_of_cons in Hin as [[= -> ->] | Hin];
          [exact Hle | eapply Hmin; eassumption].
      * right. destruct Hfound as [-> | (section' & data' & Hw & Hin & Ht & Hacc & Hlow)].
        -- exists section, data. cbn. repeat split; try assumption || reflexivity.
           left.
        -- exists section', data'. repeat split; try assumption.
           ++ right. exact Hin.
           ++ lra.
    + destruct (IH (weakestSection, lowest)) as (Hle & Hmin & Hfound).
      cbn [fst snd] in *. split; [exact Hle |]. split.
      * intros section' data' Hin Ht. apply elem_of_cons in Hin as [[= -> ->] | Hin];
          [| eapply Hmin; eassumption].
        apply andb_false_iff in Hcond as [Hcond | Hcond].
        -- apply Z.leb_gt in Hcond. lia.
        -- apply Qltb_ge in Hcond. lra.
      * destruct Hfound as [-> | (section' & data' & Hw & Hin & Ht & Hacc & Hlow)];
          [left; reflexivity | right].
        exists section', data'. repeat split; try assumption. right. exact Hin.
Qed.

(** X30: the weak area of a recommendation, for sections with non-empty
    names.  There is none exactly when no section has at least 3 questions
    and an accuracy below 1; otherwise it names such a section, with that
    section's accuracy and its rounded percentage, and no section with at
    least 3 questions has a lower accuracy. *)
Theorem weak_area (level : string) (results : list (string * SectionResult)) :
  (forall section data, (section, data) ∈ results -> section <> EmptyString) ->
  let weak := snd (getRecommendation level results) in
  fst (getRecommendation level results) = level /\
  (weak = None <->
   forall section data, (section, data) ∈ results -> ~ eligible data) /\
  (forall area, weak = Some area ->
     exists data,
       (wa_section area, data) ∈ results /\ eligible data /\
       wa_accuracy area = sr_accuracy data /\
       wa_percent area = Math_round (sr_accuracy data * 100) /\
       forall section' data', (section', data') ∈ results ->
         3 <= sr_total data' -> (sr_accuracy data <= sr_accuracy data')%Q).
Proof.
  intros Hnames weak. subst weak. unfold getRecommendation.
  rewrite findWeakest_fold.
  destruct (weakest_loop results (None, 1%Q)) as (Hle & Hmin & Hfound).
  destruct (fold_left weakestStep results (None, 1%Q)) as [weakestSection lowest].
  cbn [fst snd] in *. split; [reflexivity |].
  destruct Hfound as [[= -> ->] | (section & data & -> & Hin & Ht & Hacc & ->)].
  - split; [| discriminate]. split; [| reflexivity].
    intros _ section data Hin [Ht Hacc]. specialize (Hmin _ _ Hin Ht). lra.
  - destruct (decide (section = EmptyString)) as [-> | _];
      [destruct (Hnames _ _ Hin); reflexivity |].
    split.
    + split; [discriminate |]. intros Hnone. destruct (Hnone _ _ Hin).
      split; assumption.
    + intros area [= <-]. cbn. exists data.
      split; [exact Hin |]. split; [split; assumption |].
      split; [reflexivity |]. split; [reflexivity |]. exact Hmin.
Qed.

(** Results of a test whose reading section is the weakest. *)
Definition weakReading : list (string * SectionResult) :=
  [("grammar", mkSectionResult 10 14 (10 # 14) "B2" ∅);
   ("vocabulary", mkSectionResult 2 2 1 "B2" ∅);
   ("reading", mkSectionResult 3 14 (3 # 14) "A1" ∅);
   ("listening_simulation", mkSectionResult 12 14 (12 # 14) "C1" ∅)].

Lemma weak_area_witness :
  fst (getRecommendation "B1" weakReading) = "B1" /\
  (snd (getRecommendation "B1" weakReading) = None <->
   forall section data, (section, data) ∈ weakReading -> ~ eligible data) /\
  (forall area, snd (getRecommendation "B1" weakReading) = Some area ->
     exists data,
       (wa_section area, data) ∈ weakReading /\ eligible data /\
       wa_accuracy area = sr_accuracy data /\
       wa_percent area = Math_round (sr_accuracy data * 100) /\
       forall section' data', (section', data') ∈ weakReading ->
         3 <= sr_total data' -> (sr_accuracy data <= sr_accuracy data')%Q).
Proof.
  apply (weak_area "B1" weakReading).
  intros section data Hin. unfold weakReading in Hin.
  rewrite !elem_of_cons, elem_of_nil in Hin.
  destruct Hin as [[= -> _] | [[= -> _] | [[= -> _] | [[= -> _] | []]]]];
    discriminate.
Defined.

End PlacementReport_facts.
